(** * EGS core kernel: a shallow embedding of [egs_core.py]

    The Python module builds two gate schedules of one variational
    ansatz (the interleaved "standard" one and the layered "EGS" one),
    a thermal noise model, and a benchmark driver that compiles and
    runs both circuits.  The Qiskit circuit object is embedded as the
    ordered log of the instructions appended to it, Python exceptions
    as an error result, local variables and the process-global NumPy
    generator as explicit state. *)

From Stdlib Require Import String ZArith QArith List Lia Bool Permutation.
Import ListNotations.
Open Scope Z_scope.

(** ** Exceptions and results *)

(** The exceptions that can travel through the module.  The first
    group is raised by Python and by the libraries the module calls;
    the second group is the error taxonomy of the design document, of
    which [egs_core.py] defines and raises none. *)
Inductive exn : Type :=
| IndexError
| ValueError
| CircuitError
| TranspilerError
| AerError
| InsufficientParametersError
| CompilationError
| ExecutionError
| DegenerateResultError.

Inductive result (A : Type) : Type :=
| Ok (a : A)
| Raise (e : exn).
Arguments Ok {A} a.
Arguments Raise {A} e.

(** ** Statements with state and exceptions

    A statement runs on a state [S]; an exception leaves the state as
    it was when the exception was raised (Python rolls nothing back). *)
Module Stmt.

Definition M (S A : Type) : Type := S -> result A * S.

Definition ret {S A} (a : A) : M S A := fun s => (Ok a, s).

Definition bind {S A B} (m : M S A) (k : A -> M S B) : M S B :=
  fun s => match m s with
           | (Ok a, s') => k a s'
           | (Raise e, s') => (Raise e, s')
           end.

Definition raise {S A} (e : exn) : M S A := fun s => (Raise e, s).

Definition lift {S A} (r : result A) : M S A := fun s => (r, s).

Definition get {S} : M S S := fun s => (Ok s, s).

Definition modify {S} (f : S -> S) : M S unit := fun s => (Ok tt, f s).

(** [for i in l: body i] *)
Fixpoint for_ {S} (l : list Z) (body : Z -> M S unit) : M S unit :=
  match l with
  | [] => ret tt
  | i :: l' => bind (body i) (fun _ => for_ l' body)
  end.

(** [for x in l: body x] over a list of arbitrary items *)
Fixpoint foreach {S X} (l : list X) (body : X -> M S unit) : M S unit :=
  match l with
  | [] => ret tt
  | x :: l' => bind (body x) (fun _ => foreach l' body)
  end.

End Stmt.

Declare Scope stmt_scope.
Delimit Scope stmt_scope with stmt.
Notation "x <- m ;; k" := (Stmt.bind m (fun x => k))
  (at level 61, m at next level, right associativity) : stmt_scope.
Notation "m ;; k" := (Stmt.bind m (fun _ => k))
  (at level 61, right associativity) : stmt_scope.

(** ** Python built-ins *)

(** [range(n)]: empty when [n <= 0]. *)
Definition range (n : Z) : list Z := map Z.of_nat (seq 0 (Z.to_nat n)).

(** [l[i]] on a sequence: negative indices count from the end, anything
    outside [-len, len) raises [IndexError]. *)
Definition getitem {A} (l : list A) (i : Z) : result A :=
  let len := Z.of_nat (length l) in
  let j := if i <? 0 then i + len else i in
  if (0 <=? j) && (j <? len) then
    match nth_error l (Z.to_nat j) with
    | Some a => Ok a
    | None => Raise IndexError
    end
  else Raise IndexError.

(** ** Circuits *)

(** One entry of a circuit's instruction list.  [Barrier] is the
    barrier across all qubits (the only form the module emits);
    [Measure q c] measures qubit [q] into bit [c] of the [meas]
    register. *)
Inductive instr (angle : Type) : Type :=
| H (q : Z)
| Rz (theta : angle) (q : Z)
| Rx (theta : angle) (q : Z)
| Cx (control target : Z)
| Barrier
| Measure (q : Z) (c : Z).
Arguments H {angle} q.
Arguments Rz {angle} theta q.
Arguments Rx {angle} theta q.
Arguments Cx {angle} control target.
Arguments Barrier {angle}.
Arguments Measure {angle} q c.

Record QuantumCircuit (angle : Type) : Type := mkQuantumCircuit {
  num_qubits : Z;
  num_clbits : Z;
  data : list (instr angle)
}.
Arguments mkQuantumCircuit {angle} num_qubits num_clbits data.
Arguments num_qubits {angle} q.
Arguments num_clbits {angle} q.
Arguments data {angle} q.

(** [QuantumCircuit(n, m)]: Qiskit registers reject a negative size. *)
Definition QuantumCircuit_new (angle : Type) (n m : Z)
  : result (QuantumCircuit angle) :=
  if (n <? 0) || (m <? 0) then Raise CircuitError
  else Ok {| num_qubits := n; num_clbits := m; data := [] |}.

Definition qc_append {angle} (c : QuantumCircuit angle) (i : instr angle)
  : QuantumCircuit angle :=
  {| num_qubits := num_qubits c;
     num_clbits := num_clbits c;
     data := data c ++ [i] |}.

(** [qc.measure_all()]: a fresh classical register [meas] with one bit
    per qubit, a barrier, then qubit [q] measured into [meas[q]]. *)
Definition measure_all_instrs (angle : Type) (n : Z) : list (instr angle) :=
  Barrier :: map (fun q => Measure q q) (range n).

Definition qc_measure_all {angle} (c : QuantumCircuit angle)
  : QuantumCircuit angle :=
  {| num_qubits := num_qubits c;
     num_clbits := num_clbits c + num_qubits c;
     data := data c ++ measure_all_instrs angle (num_qubits c) |}.

(** ** The two circuit builders *)

Section Builders.

Variable angle : Type.

(** Local variables of a builder: the circuit under construction,
    the parameter cursor [idx], and whatever else the builder keeps
    ([rz_ops] in the EGS builder, nothing in the standard one). *)
Record locals (X : Type) : Type := mkLocals {
  qc : QuantumCircuit angle;
  idx : Z;
  extra : X
}.
Arguments mkLocals {X} qc idx extra.
Arguments qc {X} l.
Arguments idx {X} l.
Arguments extra {X} l.

Section Statements.

Variable X : Type.
Let stmt := Stmt.M (locals X).

Definition emit (i : instr angle) : stmt unit :=
  Stmt.modify (fun s =>
    {| qc := qc_append (qc s) i; idx := idx s; extra := extra s |}).

Definition qc_h (q : Z) : stmt unit := emit (H q).
Definition qc_rz (theta : angle) (q : Z) : stmt unit := emit (Rz theta q).
Definition qc_rx (theta : angle) (q : Z) : stmt unit := emit (Rx theta q).
Definition qc_cx (c t : Z) : stmt unit := emit (Cx c t).
Definition qc_barrier : stmt unit := emit Barrier.

Definition measure_all : stmt unit :=
  Stmt.modify (fun s =>
    {| qc := qc_measure_all (qc s); idx := idx s; extra := extra s |}).

(** [idx = v] *)
Definition set_idx (v : Z) : stmt unit :=
  Stmt.modify (fun s => {| qc := qc s; idx := v; extra := extra s |}).

(** [idx += 1] *)
Definition incr_idx : stmt unit :=
  Stmt.modify (fun s => {| qc := qc s; idx := idx s + 1; extra := extra s |}).

(** [params[idx]] *)
Definition param (params : list angle) : stmt angle :=
  fun s => (getitem params (idx s), s).

Definition set_extra (x : X) : stmt unit :=
  Stmt.modify (fun s => {| qc := qc s; idx := idx s; extra := x |}).

(** [return qc], after the constructor call that opens the body. *)
Definition run_builder (n_qubits : Z) (x0 : X) (body : stmt unit)
  : result (QuantumCircuit angle) :=
  match QuantumCircuit_new angle n_qubits n_qubits with
  | Raise e => Raise e
  | Ok c0 =>
      match body {| qc := c0; idx := 0; extra := x0 |} with
      | (Ok _, s) => Ok (qc s)
      | (Raise e, _) => Raise e
      end
  end.

End Statements.

Arguments emit {X} i.
Arguments qc_h {X} q.
Arguments qc_rz {X} theta q.
Arguments qc_rx {X} theta q.
Arguments qc_cx {X} c t.
Arguments qc_barrier {X}.
Arguments measure_all {X}.
Arguments set_idx {X} v.
Arguments incr_idx {X}.
Arguments param {X} params.
Arguments set_extra {X} x.
Arguments run_builder {X} n_qubits x0 body.

Open Scope stmt_scope.

(** The body of one layer of the standard builder. *)
Definition standard_layer (n_qubits : Z) (params : list angle)
  : Stmt.M (locals unit) unit :=
  Stmt.for_ (range (n_qubits - 1)) (fun i =>
    qc_cx i (i + 1) ;;
    theta <- param params ;;
    qc_rz theta (i + 1) ;;
    qc_cx i (i + 1) ;;
    incr_idx) ;;
  Stmt.for_ (range n_qubits) (fun i =>
    theta <- param params ;;
    qc_rx theta i ;;
    incr_idx).

Definition build_genomic_ansatz_standard
  (n_qubits layers : Z) (params : list angle)
  : result (QuantumCircuit angle) :=
  run_builder n_qubits tt
    (Stmt.for_ (range n_qubits) (fun i => qc_h i) ;;
     set_idx 0 ;;
     Stmt.for_ (range layers) (fun _ => standard_layer n_qubits params) ;;
     measure_all).

(** The body of one rotation layer of the EGS builder; [extra] holds
    [rz_ops]. *)
Definition egs_layer (n_qubits : Z) (params : list angle)
  : Stmt.M (locals (list (Z * angle))) unit :=
  set_extra [] ;;
  Stmt.for_ (range (n_qubits - 1)) (fun i =>
    theta <- param params ;;
    ops <- Stmt.get ;;
    set_extra (extra ops ++ [(i + 1, theta)]) ;;
    incr_idx) ;;
  ops <- Stmt.get ;;
  Stmt.foreach (extra ops) (fun '(q, theta) => qc_rz theta q) ;;
  qc_barrier ;;
  Stmt.for_ (range n_qubits) (fun i =>
    theta <- param params ;;
    qc_rx theta i ;;
    incr_idx) ;;
  qc_barrier.

Definition build_genomic_ansatz_egs
  (n_qubits layers : Z) (params : list angle)
  : result (QuantumCircuit angle) :=
  run_builder n_qubits []
    (Stmt.for_ (range n_qubits) (fun i => qc_h i) ;;
     qc_barrier ;;
     set_idx 0 ;;
     Stmt.for_ (range layers) (fun _ => egs_layer n_qubits params) ;;
     Stmt.for_ (range layers) (fun _ =>
       Stmt.for_ (range (n_qubits - 1)) (fun i => qc_cx i (i + 1))) ;;
     measure_all).

End Builders.

Arguments mkLocals {angle X} qc idx extra.
Arguments qc {angle X} l.
Arguments idx {angle X} l.
Arguments extra {angle X} l.
Arguments emit {angle X} i.
Arguments qc_h {angle X} q.
Arguments qc_rz {angle X} theta q.
Arguments qc_rx {angle X} theta q.
Arguments qc_cx {angle X} c t.
Arguments qc_barrier {angle X}.
Arguments measure_all {angle X}.
Arguments set_idx {angle X} v.
Arguments incr_idx {angle X}.
Arguments param {angle X} params.
Arguments set_extra {angle X} x.
Arguments run_builder {angle X} n_qubits x0 body.
Arguments standard_layer {angle} n_qubits params.
Arguments egs_layer {angle} n_qubits params.
Arguments build_genomic_ansatz_standard {angle} n_qubits layers params.
Arguments build_genomic_ansatz_egs {angle} n_qubits layers params.

(** ** The noise model *)

(** An error channel as the tree of the library calls that built it.
    [thermal_relaxation_error] and [depolarizing_error] are the two
    constructors of Qiskit Aer the module calls; [a.tensor(b)] is
    [Tensor a b] and [a.compose(b)] is [Compose a b].  Float literals
    are kept as the decimal fractions the source writes. *)
Inductive QuantumError : Type :=
| thermal_relaxation_error (t1 t2 time : Q)
| depolarizing_error (param : Q) (num_qubits : Z)
| Tensor (self other : QuantumError)
| Compose (self other : QuantumError).

(** Number of qubits a channel acts on. *)
Fixpoint error_qubits (e : QuantumError) : Z :=
  match e with
  | thermal_relaxation_error _ _ _ => 1
  | depolarizing_error _ n => n
  | Tensor a b => error_qubits a + error_qubits b
  | Compose a _ => error_qubits a
  end.

(** The elementary channels of an error in the order they act:
    [a.compose(b)] applies [a] first and [b] after it. *)
Fixpoint application_order (e : QuantumError) : list QuantumError :=
  match e with
  | Compose a b => application_order a ++ application_order b
  | _ => [e]
  end.

(** A [NoiseModel] keeps, per instruction name, the error that applies
    on all qubits, and separately the errors bound to specific qubits. *)
Record NoiseModel : Type := mkNoiseModel {
  default_quantum_errors : list (string * QuantumError);
  local_quantum_errors : list (string * list Z * QuantumError)
}.

(** [NoiseModel()] *)
Definition NoiseModel_new : NoiseModel :=
  {| default_quantum_errors := []; local_quantum_errors := [] |}.

Fixpoint errors_lookup (name : string) (d : list (string * QuantumError))
  : option QuantumError :=
  match d with
  | [] => None
  | (k, e) :: d' => if String.eqb name k then Some e else errors_lookup name d'
  end.

(** Registering under a name that already has an all-qubit error
    composes the new error after the existing one. *)
Fixpoint errors_register (name : string) (e : QuantumError)
  (d : list (string * QuantumError)) : list (string * QuantumError) :=
  match d with
  | [] => [(name, e)]
  | (k, e0) :: d' =>
      if String.eqb name k then (k, Compose e0 e) :: d'
      else (k, e0) :: errors_register name e d'
  end.

(** [noise_model.add_all_qubit_quantum_error(error, instructions)] *)
Definition add_all_qubit_quantum_error
  (nm : NoiseModel) (error : QuantumError) (instructions : list string)
  : NoiseModel :=
  {| default_quantum_errors :=
       fold_left (fun d name => errors_register name error d)
                 instructions (default_quantum_errors nm);
     local_quantum_errors := local_quantum_errors nm |}.

Definition create_thermal_noise : NoiseModel :=
  let noise_model := NoiseModel_new in
  let t1 := (120 # 1000000)%Q in
  let t2 := (80 # 1000000)%Q in
  let time_1q := (60 # 1000000000)%Q in
  let time_2q := (300 # 1000000000)%Q in
  let error_1q_thermal := thermal_relaxation_error t1 t2 time_1q in
  let error_2q_thermal :=
    Tensor (thermal_relaxation_error t1 t2 time_2q)
           (thermal_relaxation_error t1 t2 time_2q) in
  let error_1q_op := depolarizing_error (1 # 1000)%Q 1 in
  let error_2q_op := depolarizing_error (1 # 100)%Q 2 in
  let noise_model :=
    add_all_qubit_quantum_error noise_model
      (Compose error_1q_thermal error_1q_op)
      ["h"; "x"; "z"; "ry"; "rz"; "rx"; "s"; "t"]%string in
  let noise_model :=
    add_all_qubit_quantum_error noise_model
      (Compose error_2q_thermal error_2q_op)
      ["cx"; "cz"]%string in
  noise_model.

(** [AerSimulator(noise_model=...)] *)
Record AerSimulator : Type := mkAerSimulator {
  noise_model : NoiseModel
}.

(** Module-level globals. *)
Definition backend : AerSimulator :=
  {| noise_model := create_thermal_noise |}.

Definition SHOTS : Z := 8192.

(** ** The benchmark driver *)

(** [np.pi] is the binary64 number [884279719003555 / 2^48]. *)
Definition np_pi : Q := (884279719003555 # 281474976710656)%Q.

(** [max(values)] raises [ValueError] on an empty sequence. *)
Definition py_max (l : list Z) : result Z :=
  match l with
  | [] => Raise ValueError
  | x :: l' => Ok (fold_left Z.max l' x)
  end.

Record BenchmarkReport : Type := mkReport {
  fid_std : Q;
  fid_egs : Q;
  depth_std : Z;
  depth_egs : Z
}.

(** Process state the driver runs in: the state of NumPy's global
    generator and the state of the Qiskit side (transpiler, simulator). *)
Record world (rng ext : Type) : Type := mkWorld {
  np_random : rng;
  qiskit : ext
}.
Arguments mkWorld {rng ext} np_random qiskit.
Arguments np_random {rng ext} w.
Arguments qiskit {rng ext} w.

Section Benchmark.

(** The libraries the driver calls are parameters.  Parameter values
    are binary64 floats, embedded as the rationals they denote. *)
Variables rng ext compiled : Type.

(** The generator state [np.random.seed(s)] installs. *)
Variable mt19937_seed : Z -> rng.

(** [uniform(low, high, size)] on a generator state. *)
Variable random_uniform : Q -> Q -> Z -> rng -> result (list Q) * rng.

(** [transpile(circuit, backend, optimization_level=...)] *)
Variable transpile :
  QuantumCircuit Q -> AerSimulator -> Z -> Stmt.M (world rng ext) compiled.

(** [backend.run(circuit, shots=...).result().get_counts()] *)
Variable run_counts :
  AerSimulator -> compiled -> Z -> Stmt.M (world rng ext) (list (string * Z)).

(** [circuit.depth()] *)
Variable depth : compiled -> Z.

Definition n_params (n_qubits n_layers : Z) : Z :=
  n_layers * (n_qubits + (n_qubits - 1)).

(** [np.random.seed(s)] *)
Definition np_random_seed (s : Z) : Stmt.M (world rng ext) unit :=
  Stmt.modify (fun w => {| np_random := mt19937_seed s; qiskit := qiskit w |}).

(** [np.random.uniform(low, high, size)] *)
Definition np_random_uniform (low high : Q) (size : Z)
  : Stmt.M (world rng ext) (list Q) :=
  fun w =>
    let (r, g) := random_uniform low high size (np_random w) in
    (r, {| np_random := g; qiskit := qiskit w |}).

Open Scope stmt_scope.

(** The vector the driver draws: statements 2 and 3 of its body. *)
Definition generate_params (n_qubits n_layers : Z)
  : Stmt.M (world rng ext) (list Q) :=
  np_random_seed 42 ;;
  np_random_uniform (- np_pi)%Q np_pi (n_params n_qubits n_layers).

Definition run_egs_benchmark (n_qubits n_layers : Z)
  : Stmt.M (world rng ext) BenchmarkReport :=
  params <- generate_params n_qubits n_layers ;;
  qc_std <- Stmt.lift (build_genomic_ansatz_standard n_qubits n_layers params) ;;
  qc_egs <- Stmt.lift (build_genomic_ansatz_egs n_qubits n_layers params) ;;
  qc_std_opt <- transpile qc_std backend 3 ;;
  qc_egs_opt <- transpile qc_egs backend 3 ;;
  counts_std <- run_counts backend qc_std_opt SHOTS ;;
  counts_egs <- run_counts backend qc_egs_opt SHOTS ;;
  m_std <- Stmt.lift (py_max (map snd counts_std)) ;;
  m_egs <- Stmt.lift (py_max (map snd counts_egs)) ;;
  Stmt.ret {| fid_std := (inject_Z m_std / inject_Z SHOTS)%Q;
              fid_egs := (inject_Z m_egs / inject_Z SHOTS)%Q;
              depth_std := depth qc_std_opt;
              depth_egs := depth qc_egs_opt |}.

End Benchmark.

Arguments np_random_seed {rng ext} mt19937_seed s.
Arguments np_random_uniform {rng ext} random_uniform low high size.
Arguments generate_params {rng ext} mt19937_seed random_uniform n_qubits n_layers.
Arguments run_egs_benchmark {rng ext compiled}
  mt19937_seed random_uniform transpile run_counts depth n_qubits n_layers.

(** ** Schedules in closed form

    What each builder emits, written as list expressions over the
    parameters still to be consumed.  These say in one place what the
    loops of the builders do step by step; the builders above are
    proved to produce them. *)

Section Schedules.

Variable angle : Type.

(** Iterations of the pair loop and of the mixing loop of one layer. *)
Definition pairs (n_qubits : Z) : nat := Z.to_nat (n_qubits - 1).
Definition singles (n_qubits : Z) : nat := Z.to_nat n_qubits.
Definition per_layer (n_qubits : Z) : nat := (pairs n_qubits + singles n_qubits)%nat.

Definition h_stage (n_qubits : Z) : list (instr angle) :=
  map (fun q => H q) (range n_qubits).

(** [entangle, rotate, un-entangle] on the pair [(i, i+1)]. *)
Definition cx_rz_cx (p : Z * angle) : list (instr angle) :=
  [Cx (fst p) (fst p + 1); Rz (snd p) (fst p + 1); Cx (fst p) (fst p + 1)].

Definition rz_of (p : Z * angle) : instr angle := Rz (snd p) (fst p + 1).
Definition rx_of (p : Z * angle) : instr angle := Rx (snd p) (fst p).

Definition rz_stage (n_qubits : Z) (ps : list angle) : list (instr angle) :=
  map rz_of (combine (range (n_qubits - 1)) ps).

Definition rx_stage (n_qubits : Z) (ps : list angle) : list (instr angle) :=
  map rx_of (combine (range n_qubits) (skipn (pairs n_qubits) ps)).

Definition standard_layer_schedule (n_qubits : Z) (ps : list angle)
  : list (instr angle) :=
  flat_map cx_rz_cx (combine (range (n_qubits - 1)) ps) ++ rx_stage n_qubits ps.

Definition egs_layer_schedule (n_qubits : Z) (ps : list angle)
  : list (instr angle) :=
  rz_stage n_qubits ps ++ [Barrier] ++ rx_stage n_qubits ps ++ [Barrier].

(** [L] layers in a row, each starting where the previous one stopped
    in the parameter vector. *)
Fixpoint layers_schedule (layer : list angle -> list (instr angle))
  (width L : nat) (ps : list angle) : list (instr angle) :=
  match L with
  | O => []
  | S L' => layer ps ++ layers_schedule layer width L' (skipn width ps)
  end.

Definition cx_chain (n_qubits : Z) : list (instr angle) :=
  map (fun i => Cx i (i + 1)) (range (n_qubits - 1)).

Definition cx_stage (n_qubits : Z) (L : nat) : list (instr angle) :=
  concat (repeat (cx_chain n_qubits) L).

Definition standard_schedule (n_qubits layers : Z) (ps : list angle)
  : list (instr angle) :=
  h_stage n_qubits
  ++ layers_schedule (standard_layer_schedule n_qubits)
       (per_layer n_qubits) (Z.to_nat layers) ps
  ++ measure_all_instrs angle n_qubits.

Definition egs_schedule (n_qubits layers : Z) (ps : list angle)
  : list (instr angle) :=
  h_stage n_qubits ++ [Barrier]
  ++ layers_schedule (egs_layer_schedule n_qubits)
       (per_layer n_qubits) (Z.to_nat layers) ps
  ++ cx_stage n_qubits (Z.to_nat layers)
  ++ measure_all_instrs angle n_qubits.

(** Parameters a run of [layers] layers reads. *)
Definition consumed (n_qubits layers : Z) : nat :=
  (Z.to_nat layers * per_layer n_qubits)%nat.

(** *** Views of a circuit *)

Definition is_rotation (g : instr angle) : bool :=
  match g with Rz _ _ | Rx _ _ => true | _ => false end.

Definition is_cx (g : instr angle) : bool :=
  match g with Cx _ _ => true | _ => false end.

Definition is_rz (g : instr angle) : bool :=
  match g with Rz _ _ => true | _ => false end.

Definition is_rx (g : instr angle) : bool :=
  match g with Rx _ _ => true | _ => false end.

Definition is_barrier (g : instr angle) : bool :=
  match g with Barrier => true | _ => false end.

(** The gate applications of an instruction list: everything but the
    barriers, which are scheduling markers. *)
Definition gates (l : list (instr angle)) : list (instr angle) :=
  filter (fun g => negb (is_barrier g)) l.

Definition rotations (l : list (instr angle)) : list (instr angle) :=
  filter is_rotation l.

Definition entanglers (l : list (instr angle)) : list (instr angle) :=
  filter is_cx l.

(** Gates that are neither rotations nor entanglers. *)
Definition fixed_gates (l : list (instr angle)) : list (instr angle) :=
  filter (fun g => negb (is_barrier g) && negb (is_rotation g) && negb (is_cx g)) l.

(** The angle a rotation carries. *)
Definition angle_of (g : instr angle) : option angle :=
  match g with
  | Rz theta _ | Rx theta _ => Some theta
  | _ => None
  end.

Fixpoint angles (l : list (instr angle)) : list angle :=
  match l with
  | [] => []
  | g :: l' =>
      match angle_of g with
      | Some theta => theta :: angles l'
      | None => angles l'
      end
  end.

End Schedules.

Arguments h_stage {angle} n_qubits.
Arguments cx_rz_cx {angle} p.
Arguments rz_of {angle} p.
Arguments rx_of {angle} p.
Arguments rz_stage {angle} n_qubits ps.
Arguments rx_stage {angle} n_qubits ps.
Arguments standard_layer_schedule {angle} n_qubits ps.
Arguments egs_layer_schedule {angle} n_qubits ps.
Arguments layers_schedule {angle} layer width L ps.
Arguments cx_chain {angle} n_qubits.
Arguments cx_stage {angle} n_qubits L.
Arguments standard_schedule {angle} n_qubits layers ps.
Arguments egs_schedule {angle} n_qubits layers ps.
Arguments is_rotation {angle} g.
Arguments is_cx {angle} g.
Arguments is_rz {angle} g.
Arguments is_rx {angle} g.
Arguments is_barrier {angle} g.
Arguments gates {angle} l.
Arguments rotations {angle} l.
Arguments entanglers {angle} l.
Arguments fixed_gates {angle} l.
Arguments angle_of {angle} g.
Arguments angles {angle} l.

(** Each parameter paired with its index in the vector. *)
Definition indexed {A} (ps : list A) : list (nat * A) :=
  combine (seq 0 (length ps)) ps.

(** A builder state after emitting [out] and moving the cursor by [k]. *)
Definition advance {angle X} (s : locals angle X)
  (out : list (instr angle)) (k : Z) : locals angle X :=
  {| qc := {| num_qubits := num_qubits (qc s);
              num_clbits := num_clbits (qc s);
              data := data (qc s) ++ out |};
     idx := idx s + k;
     extra := extra s |}.

(** [s'] is [s] after emitting [out] and moving the cursor by [k];
    the third local is left unconstrained. *)
Definition reaches {angle X} (s s' : locals angle X)
  (out : list (instr angle)) (k : Z) : Prop :=
  qc s' = qc (advance s out k) /\ idx s' = idx s + k.

(** The unread part of the parameter vector in a builder state. *)
Definition unread {angle X} (params : list angle) (s : locals angle X)
  : list angle :=
  skipn (Z.to_nat (idx s)) params.

(** The rotations of one layer in the order their angles are read:
    [n_qubits - 1] pair rotations, then [n_qubits] mixing rotations. *)
Definition rotation_layer {angle} (n_qubits : Z) (ps : list angle)
  : list (instr angle) :=
  rz_stage n_qubits ps ++ rx_stage n_qubits ps.

Definition rotation_plan {angle} (n_qubits layers : Z) (ps : list angle)
  : list (instr angle) :=
  layers_schedule (rotation_layer n_qubits) (per_layer n_qubits)
    (Z.to_nat layers) ps.

(** The rotation stages of the EGS schedule, layer by layer: the batch
    of pair rotations and the batch of mixing rotations. *)
Fixpoint egs_stages {angle} (n_qubits : Z) (L : nat) (ps : list angle)
  : list (list (instr angle) * list (instr angle)) :=
  match L with
  | O => []
  | S L' =>
      (rz_stage n_qubits ps, rx_stage n_qubits ps)
      :: egs_stages n_qubits L' (skipn (per_layer n_qubits) ps)
  end.

(** A layer as it sits in the circuit: each batch closed by a barrier. *)
Definition render_stage {angle} (st : list (instr angle) * list (instr angle))
  : list (instr angle) :=
  fst st ++ [Barrier] ++ snd st ++ [Barrier].

Definition stage_ok {angle} (n_qubits : Z)
  (st : list (instr angle) * list (instr angle)) : bool :=
  forallb is_rz (fst st) && (length (fst st) =? pairs n_qubits)%nat
  && forallb is_rx (snd st) && (length (snd st) =? singles n_qubits)%nat.

(** The entangling gates of one standard layer: each adjacent pair
    twice, once before and once after its rotation. *)
Definition cx_twice {angle} (n_qubits : Z) : list (instr angle) :=
  flat_map (fun i => [Cx i (i + 1); Cx i (i + 1)]) (range (n_qubits - 1)).

(** *** Well-formed instructions

    Qiskit rejects an instruction on a qubit the circuit does not have
    and a [cx] whose control is its target; the embedding appends
    without checking, and the builders are proved to emit only
    instructions that pass. *)

Definition qubit_ok (n q : Z) : bool := (0 <=? q) && (q <? n).

Definition instr_ok {angle} (n : Z) (g : instr angle) : bool :=
  match g with
  | H q | Rz _ q | Rx _ q => qubit_ok n q
  | Cx c t => qubit_ok n c && qubit_ok n t && negb (c =? t)
  | Barrier => true
  | Measure q c => qubit_ok n q && qubit_ok n c
  end.

(** The result of a builder in one expression. *)
Definition builder_result {angle} (n_qubits layers : Z) (params : list angle)
  (schedule : list (instr angle)) : result (QuantumCircuit angle) :=
  if n_qubits <? 0 then Raise CircuitError
  else if (length params <? consumed n_qubits layers)%nat then Raise IndexError
  else Ok {| num_qubits := n_qubits;
             num_clbits := n_qubits + n_qubits;
             data := schedule |}.

(** *** The two channels of the noise model, written out *)

Definition one_qubit_gates : list string :=
  ["h"; "x"; "z"; "ry"; "rz"; "rx"; "s"; "t"]%string.

Definition two_qubit_gates : list string := ["cx"; "cz"]%string.

Definition channel_1q : QuantumError :=
  Compose
    (thermal_relaxation_error (120 # 1000000) (80 # 1000000) (60 # 1000000000))
    (depolarizing_error (1 # 1000) 1).

Definition channel_2q : QuantumError :=
  Compose
    (Tensor
       (thermal_relaxation_error (120 # 1000000) (80 # 1000000) (300 # 1000000000))
       (thermal_relaxation_error (120 # 1000000) (80 # 1000000) (300 # 1000000000)))
    (depolarizing_error (1 # 100) 2).

Definition Q_eq_dec (a b : Q) : {a = b} + {a <> b}.
Proof. decide equality; [apply Pos.eq_dec | apply Z.eq_dec]. Defined.

Definition QuantumError_eq_dec (a b : QuantumError) : {a = b} + {a <> b}.
Proof. decide equality; try apply Q_eq_dec; apply Z.eq_dec. Defined.

(** The distinct all-qubit channels of a noise model, in order of
    first registration. *)
Definition channels (nm : NoiseModel) : list QuantumError :=
  rev (nodup QuantumError_eq_dec (rev (map snd (default_quantum_errors nm)))).

(** *** The driver after the parameter vector is drawn *)

Section Evaluate.

Variables rng ext compiled : Type.
Variable transpile :
  QuantumCircuit Q -> AerSimulator -> Z -> Stmt.M (world rng ext) compiled.
Variable run_counts :
  AerSimulator -> compiled -> Z -> Stmt.M (world rng ext) (list (string * Z)).
Variable depth : compiled -> Z.

Open Scope stmt_scope.

(** Everything [run_egs_benchmark] does with the two circuits. *)
Definition evaluate_circuits (r_std r_egs : result (QuantumCircuit Q))
  : Stmt.M (world rng ext) BenchmarkReport :=
  qc_std <- Stmt.lift r_std ;;
  qc_egs <- Stmt.lift r_egs ;;
  qc_std_opt <- transpile qc_std backend 3 ;;
  qc_egs_opt <- transpile qc_egs backend 3 ;;
  counts_std <- run_counts backend qc_std_opt SHOTS ;;
  counts_egs <- run_counts backend qc_egs_opt SHOTS ;;
  m_std <- Stmt.lift (py_max (map snd counts_std)) ;;
  m_egs <- Stmt.lift (py_max (map snd counts_egs)) ;;
  Stmt.ret {| fid_std := (inject_Z m_std / inject_Z SHOTS)%Q;
              fid_egs := (inject_Z m_egs / inject_Z SHOTS)%Q;
              depth_std := depth qc_std_opt;
              depth_egs := depth qc_egs_opt |}.

End Evaluate.

Arguments evaluate_circuits {rng ext compiled} transpile run_counts depth r_std r_egs.

(** *** Library doubles used in the examples

    Small concrete generators, compilers and simulators with which the
    statements about the driver are exercised. *)

Definition lcg_modulus : Z := 2147483648.

Definition lcg_next (g : Z) : Z := (1103515245 * g + 12345) mod lcg_modulus.

Fixpoint lcg_draws (low high : Q) (k : nat) (g : Z) : list Q * Z :=
  match k with
  | O => ([], g)
  | S k' =>
      let g1 := lcg_next g in
      let u := (g1 # 2147483648)%Q in
      let (v, g') := lcg_draws low high k' g1 in
      ((low + (high - low) * u)%Q :: v, g')
  end.

Definition lcg_uniform (low high : Q) (size : Z) (g : Z) : result (list Q) * Z :=
  if size <? 0 then (Raise ValueError, g)
  else let (v, g') := lcg_draws low high (Z.to_nat size) g in (Ok v, g').

Definition lcg_seed (s : Z) : Z := s mod lcg_modulus.

Definition rejecting_transpile (c : QuantumCircuit Q) (b : AerSimulator) (level : Z)
  : Stmt.M (world Z unit) (QuantumCircuit Q) :=
  Stmt.raise TranspilerError.

Definition identity_transpile (c : QuantumCircuit Q) (b : AerSimulator) (level : Z)
  : Stmt.M (world Z unit) (QuantumCircuit Q) :=
  Stmt.ret c.

Definition failing_run (b : AerSimulator) (c : QuantumCircuit Q) (shots : Z)
  : Stmt.M (world Z unit) (list (string * Z)) :=
  Stmt.raise AerError.

Definition single_outcome_run (b : AerSimulator) (c : QuantumCircuit Q) (shots : Z)
  : Stmt.M (world Z unit) (list (string * Z)) :=
  Stmt.ret [("0"%string, shots)].

Definition instruction_count (c : QuantumCircuit Q) : Z :=
  Z.of_nat (length (data c)).

(** A run on the doubles: the starting state, the vector drawn for
    two qubits and one layer, the state after the draw and the two
    circuits built from the vector. *)
Definition example_world : world Z unit := {| np_random := 7; qiskit := tt |}.

Definition example_params : list Q :=
  Eval vm_compute in
  match fst (generate_params lcg_seed lcg_uniform 2 1 example_world) with
  | Ok v => v
  | Raise _ => []
  end.

Definition example_world_drawn : world Z unit :=
  Eval vm_compute in
  snd (generate_params lcg_seed lcg_uniform 2 1 example_world).

(** *** Further views of a circuit *)

Definition is_measure {angle} (g : instr angle) : bool :=
  match g with Measure _ _ => true | _ => false end.

Definition barriers {angle} (l : list (instr angle)) : list (instr angle) :=
  filter is_barrier l.

Definition measurements {angle} (l : list (instr angle)) : list (instr angle) :=
  filter is_measure l.

(** The [cx] gates with control [c] and target [t]. *)
Definition is_cx_on {angle} (c t : Z) (g : instr angle) : bool :=
  match g with
  | Cx c' t' => (c' =? c) && (t' =? t)
  | _ => false
  end.

(** Every [rz] of the list stands between two [cx] on the pair that
    ends in its target qubit. *)
Definition rz_between_cx {angle} (l : list (instr angle)) : Prop :=
  forall pre theta q post,
    l = pre ++ Rz theta q :: post ->
    exists pre' post',
      pre = pre' ++ [Cx (q - 1) q] /\ post = Cx (q - 1) q :: post'.

(** The name under which Qiskit files an instruction, which is the key
    a noise model is looked up with, and the number of qubits it
    acts on. *)
Definition instr_name {angle} (g : instr angle) : string :=
  match g with
  | H _ => "h"
  | Rz _ _ => "rz"
  | Rx _ _ => "rx"
  | Cx _ _ => "cx"
  | Barrier => "barrier"
  | Measure _ _ => "measure"
  end.

Definition is_gate {angle} (g : instr angle) : bool :=
  match g with
  | Barrier | Measure _ _ => false
  | _ => true
  end.

Definition gate_qubits {angle} (g : instr angle) : Z :=
  match g with
  | Cx _ _ => 2
  | _ => 1
  end.

(** Sum of the counts of an outcome table. *)
Definition total_counts (counts : list (string * Z)) : Z :=
  fold_right Z.add 0 (map snd counts).

(** A simulator double that reports no outcome at all. *)
Definition silent_run (b : AerSimulator) (c : QuantumCircuit Q) (shots : Z)
  : Stmt.M (world Z unit) (list (string * Z)) :=
  Stmt.ret [].

(** A simulator double that splits the shots over two outcomes. *)
Definition two_outcome_run (b : AerSimulator) (c : QuantumCircuit Q) (shots : Z)
  : Stmt.M (world Z unit) (list (string * Z)) :=
  Stmt.ret [("00"%string, shots - 1000); ("11"%string, 1000)].

(** The two circuits built from the vector drawn in the example run. *)
Definition example_standard : QuantumCircuit Q :=
  Eval vm_compute in
  match build_genomic_ansatz_standard 2 1 example_params with
  | Ok c => c
  | Raise _ => {| num_qubits := 0; num_clbits := 0; data := [] |}
  end.

Definition example_egs : QuantumCircuit Q :=
  Eval vm_compute in
  match build_genomic_ansatz_egs 2 1 example_params with
  | Ok c => c
  | Raise _ => {| num_qubits := 0; num_clbits := 0; data := [] |}
  end.

(** * Properties *)

(** ** Ranges and indexing *)

Lemma range_length (n : Z) : length (range n) = Z.to_nat n.
Proof. unfold range. now rewrite length_map, length_seq. Qed.

Lemma getitem_skipn {A} (l : list A) (i : Z) :
  0 <= i ->
  getitem l i =
  match skipn (Z.to_nat i) l with
  | x :: _ => Ok x
  | [] => Raise IndexError
  end.
Proof.
  intros Hi. unfold getitem.
  destruct (Z.ltb_spec i 0) as [Hneg | _]; [lia |].
  destruct (Z.leb_spec 0 i) as [_ | Hneg]; [| lia].
  cbn [andb].
  destruct (Z.ltb_spec i (Z.of_nat (length l))) as [Hlt | Hge].
  - destruct (nth_error l (Z.to_nat i)) as [a |] eqn:E.
    + apply nth_error_split in E as (l1 & l2 & -> & Hlen).
      rewrite <- Hlen, skipn_app, skipn_all, Nat.sub_diag. reflexivity.
    + apply nth_error_None in E. lia.
  - rewrite skipn_all2 by lia. reflexivity.
Qed.

Lemma skipn_succ_tail {A} (l : list A) (k : nat) (x : A) (r : list A) :
  skipn k l = x :: r -> skipn (S k) l = r.
Proof.
  intros E.
  change (S k) with (1 + k)%nat.
  rewrite <- skipn_skipn, E. reflexivity.
Qed.

(** ** Loops of the builders *)

Lemma advance_nil {angle X} (s : locals angle X) : advance s [] 0 = s.
Proof.
  destruct s as [[nq nc d] i x]. unfold advance; cbn.
  now rewrite app_nil_r, Z.add_0_r.
Qed.

Lemma advance_advance {angle X} (s : locals angle X) o1 o2 k1 k2 :
  advance (advance s o1 k1) o2 k2 = advance s (o1 ++ o2) (k1 + k2).
Proof.
  unfold advance; cbn. now rewrite <- app_assoc, Z.add_assoc.
Qed.

Lemma unread_advance {angle X} (params : list angle) (s : locals angle X) out k :
  0 <= idx s ->
  unread params (advance s out (Z.of_nat k)) = skipn k (unread params s).
Proof.
  intros Hi. unfold unread; cbn.
  rewrite skipn_skipn. f_equal. lia.
Qed.

Section Loops.

Variable angle : Type.
Variable X : Type.
Variable params : list angle.

(** A loop whose body only appends instructions. *)
Lemma for_emit (f : Z -> list (instr angle)) (body : Z -> Stmt.M (locals angle X) unit) :
  (forall i s, body i s = (Ok tt, advance s (f i) 0)) ->
  forall l s, Stmt.for_ l body s = (Ok tt, advance s (flat_map f l) 0).
Proof.
  intros Hbody l. induction l as [| i l IH]; intros s; cbn.
  - now rewrite advance_nil.
  - unfold Stmt.bind. rewrite Hbody, IH, advance_advance. reflexivity.
Qed.

(** A loop whose body reads [params[idx]], updates the state with the
    value read and moves the cursor by one. *)
Section Consume.

Variable upd : Z * angle -> locals angle X -> locals angle X.
Variable body : Z -> Stmt.M (locals angle X) unit.

Hypothesis upd_idx : forall p s, idx (upd p s) = idx s + 1.

Hypothesis body_ok : forall i s theta,
  getitem params (idx s) = Ok theta ->
  body i s = (Ok tt, upd (i, theta) s).

Hypothesis body_raise : forall i s e,
  getitem params (idx s) = Raise e ->
  fst (body i s) = Raise e.

Lemma unread_upd p (s : locals angle X) theta rest :
  0 <= idx s ->
  unread params s = theta :: rest ->
  unread params (upd p s) = rest.
Proof.
  intros Hi E. cbv [unread] in *. rewrite upd_idx.
  replace (Z.to_nat (idx s + 1)) with (S (Z.to_nat (idx s))) by lia.
  eapply skipn_succ_tail; eassumption.
Qed.

Lemma getitem_unread (s : locals angle X) :
  0 <= idx s ->
  getitem params (idx s) =
  match unread params s with
  | theta :: _ => Ok theta
  | [] => Raise IndexError
  end.
Proof. intros Hi. cbv [unread]. now rewrite getitem_skipn. Qed.

Lemma for_consume_ok : forall l s,
  0 <= idx s ->
  (length l <= length (unread params s))%nat ->
  Stmt.for_ l body s =
  (Ok tt, fold_left (fun s p => upd p s) (combine l (unread params s)) s).
Proof.
  induction l as [| i l IH]; intros s Hi Hlen; [reflexivity |].
  destruct (unread params s) as [| theta rest] eqn:E; [cbn in Hlen; lia |].
  assert (G : getitem params (idx s) = Ok theta).
  { rewrite getitem_unread, E by assumption. reflexivity. }
  pose proof (unread_upd (i, theta) s theta rest Hi E) as U.
  cbn [Stmt.for_]. unfold Stmt.bind.
  rewrite (body_ok i s theta G).
  rewrite IH; [| rewrite upd_idx; lia | rewrite U; cbn in Hlen; lia].
  rewrite U. reflexivity.
Qed.

Lemma for_consume_short : forall l s,
  0 <= idx s ->
  (length (unread params s) < length l)%nat ->
  fst (Stmt.for_ l body s) = Raise IndexError.
Proof.
  induction l as [| i l IH]; intros s Hi Hlen; [cbn in Hlen; lia |].
  cbn [Stmt.for_]. unfold Stmt.bind.
  destruct (unread params s) as [| theta rest] eqn:E.
  - assert (G : getitem params (idx s) = Raise IndexError).
    { rewrite getitem_unread, E by assumption. reflexivity. }
    pose proof (body_raise i s IndexError G) as R.
    destruct (body i s) as [[u | e] s']; cbn in R; [discriminate |].
    cbn. congruence.
  - assert (G : getitem params (idx s) = Ok theta).
    { rewrite getitem_unread, E by assumption. reflexivity. }
    rewrite (body_ok i s theta G).
    apply IH; [rewrite upd_idx; lia |].
    rewrite (unread_upd (i, theta) s theta rest Hi E). cbn in Hlen. lia.
Qed.

End Consume.

Lemma fold_advance (f : Z * angle -> list (instr angle)) :
  forall (l : list (Z * angle)) (s : locals angle X),
  fold_left (fun s p => advance s (f p) 1) l s =
  advance s (flat_map f l) (Z.of_nat (length l)).
Proof.
  induction l as [| p l IH]; intros s; cbn [fold_left flat_map length].
  - now rewrite advance_nil.
  - rewrite IH, advance_advance. f_equal. lia.
Qed.

End Loops.

(** ** The layers of the two builders *)

Lemma flat_map_single {A B} (g : A -> B) (l : list A) :
  flat_map (fun a => [g a]) l = map g l.
Proof. induction l as [| a l IH]; cbn; congruence. Qed.

Lemma reaches_advance {angle X} (s : locals angle X) out k :
  reaches s (advance s out k) out k.
Proof. split; reflexivity. Qed.

Lemma reaches_trans {angle X} (s1 s2 s3 : locals angle X) o1 o2 k1 k2 :
  reaches s1 s2 o1 k1 -> reaches s2 s3 o2 k2 ->
  reaches s1 s3 (o1 ++ o2) (k1 + k2).
Proof.
  intros [Q1 I1] [Q2 I2]. split.
  - rewrite Q2. unfold advance; cbn. rewrite Q1; cbn.
    now rewrite <- app_assoc.
  - lia.
Qed.

Lemma reaches_unread {angle X} (params : list angle) {s s' : locals angle X} {out k} :
  0 <= idx s -> reaches s s' out (Z.of_nat k) ->
  unread params s' = skipn k (unread params s).
Proof.
  intros Hi [_ I]. cbv [unread]. rewrite I, skipn_skipn. f_equal. lia.
Qed.

Lemma unread_shift {angle X Y} (params : list angle)
  (s : locals angle X) (s' : locals angle Y) (k : nat) :
  0 <= idx s -> idx s' = idx s + Z.of_nat k ->
  unread params s' = skipn k (unread params s).
Proof.
  intros Hi I. cbv [unread]. rewrite I, skipn_skipn. f_equal. lia.
Qed.

Ltac run_body :=
  cbv [Stmt.bind Stmt.modify Stmt.get Stmt.ret
       qc_h qc_cx qc_rz qc_rx qc_barrier emit incr_idx set_idx set_extra
       measure_all param];
  cbn [qc idx extra fst snd].

Lemma bind_ok {S A B} (m : Stmt.M S A) (k : A -> Stmt.M S B) s a s' :
  m s = (Ok a, s') -> Stmt.bind m k s = k a s'.
Proof. intros E. unfold Stmt.bind. now rewrite E. Qed.

Lemma bind_raise {S A B} (m : Stmt.M S A) (k : A -> Stmt.M S B) s e :
  fst (m s) = Raise e -> fst (Stmt.bind m k s) = Raise e.
Proof.
  intros E. unfold Stmt.bind.
  destruct (m s) as [[a | e'] s']; cbn in *; congruence.
Qed.

Lemma foreach_emit {angle X Y} (g : Y -> instr angle)
  (body : Y -> Stmt.M (locals angle X) unit) :
  (forall y s, body y s = (Ok tt, advance s [g y] 0)) ->
  forall l s, Stmt.foreach l body s = (Ok tt, advance s (map g l) 0).
Proof.
  intros Hbody l. induction l as [| y l IH]; intros s; cbn.
  - now rewrite advance_nil.
  - unfold Stmt.bind. rewrite Hbody, IH, advance_advance. reflexivity.
Qed.

Section Layers.

Variable angle : Type.
Variable params : list angle.

(** Any loop over layers, given what one layer does. *)
Section LayerLoop.

Variable X : Type.
Variable layer : Stmt.M (locals angle X) unit.
Variable sched : list angle -> list (instr angle).
Variable width : nat.

Hypothesis layer_ok : forall s,
  0 <= idx s -> (width <= length (unread params s))%nat ->
  exists s', layer s = (Ok tt, s')
             /\ reaches s s' (sched (unread params s)) (Z.of_nat width).

Hypothesis layer_short : forall s,
  0 <= idx s -> (length (unread params s) < width)%nat ->
  fst (layer s) = Raise IndexError.

Lemma layers_ok : forall (l : list Z) s,
  0 <= idx s ->
  (length l * width <= length (unread params s))%nat ->
  exists s', Stmt.for_ l (fun _ => layer) s = (Ok tt, s')
             /\ reaches s s'
                  (layers_schedule sched width (length l) (unread params s))
                  (Z.of_nat (length l * width)).
Proof.
  induction l as [| i l IH]; intros s Hi Hlen.
  - exists s. split; [reflexivity |].
    cbn. rewrite <- (advance_nil s) at 2. apply reaches_advance.
  - cbn [length] in Hlen.
    destruct (layer_ok s Hi) as (s1 & E1 & R1); [lia |].
    pose proof (reaches_unread params Hi R1) as U1.
    assert (Hi1 : 0 <= idx s1) by (destruct R1 as [_ I]; lia).
    destruct (IH s1 Hi1) as (s2 & E2 & R2).
    { rewrite U1, length_skipn. lia. }
    exists s2. split.
    + cbn [Stmt.for_]. unfold Stmt.bind. rewrite E1. exact E2.
    + cbn [length layers_schedule].
      replace (Z.of_nat (S (length l) * width))
        with (Z.of_nat width + Z.of_nat (length l * width)) by lia.
      rewrite U1 in R2. eapply reaches_trans; eassumption.
Qed.

Lemma layers_short : forall (l : list Z) s,
  0 <= idx s ->
  (length (unread params s) < length l * width)%nat ->
  fst (Stmt.for_ l (fun _ => layer) s) = Raise IndexError.
Proof.
  induction l as [| i l IH]; intros s Hi Hlen; [cbn in Hlen; lia |].
  cbn [Stmt.for_]. unfold Stmt.bind.
  destruct (Nat.lt_ge_cases (length (unread params s)) width) as [Hs | Hs].
  - pose proof (layer_short s Hi Hs) as R.
    destruct (layer s) as [[u | e] s']; cbn in R; [discriminate |].
    cbn. congruence.
  - destruct (layer_ok s Hi Hs) as (s1 & E1 & R1).
    rewrite E1. apply IH.
    + destruct R1 as [_ I]; lia.
    + rewrite (reaches_unread params Hi R1), length_skipn.
      cbn [length] in Hlen. lia.
Qed.

End LayerLoop.

(** *** One layer of the standard builder *)

Lemma standard_layer_ok n_qubits (s : locals angle unit) :
  0 <= idx s ->
  (per_layer n_qubits <= length (unread params s))%nat ->
  standard_layer n_qubits params s =
  (Ok tt, advance s (standard_layer_schedule n_qubits (unread params s))
                    (Z.of_nat (per_layer n_qubits))).
Proof.
  intros Hi Hlen. unfold per_layer, pairs, singles in *.
  unfold standard_layer.
  unfold Stmt.bind at 1.
  rewrite (@for_consume_ok angle unit params (fun p s => advance s (cx_rz_cx p) 1)).
  - rewrite fold_advance.
    assert (L1 : length (combine (range (n_qubits - 1)) (unread params s))
                 = Z.to_nat (n_qubits - 1)).
    { rewrite length_combine, range_length. lia. }
    rewrite L1.
    rewrite (@for_consume_ok angle unit params (fun p s => advance s [rx_of p] 1)).
    + rewrite fold_advance, advance_advance, flat_map_single.
      rewrite unread_advance by assumption.
      assert (L2 : length (combine (range n_qubits)
                     (skipn (Z.to_nat (n_qubits - 1)) (unread params s)))
                   = Z.to_nat n_qubits).
      { rewrite length_combine, range_length, length_skipn. lia. }
      rewrite L2.
      unfold standard_layer_schedule, rx_stage, pairs.
      do 2 f_equal. lia.
    + reflexivity.
    + intros i s0 theta G. run_body. rewrite G. reflexivity.
    + cbn. lia.
    + rewrite unread_advance by assumption.
      rewrite range_length, length_skipn. lia.
  - reflexivity.
  - intros i s0 theta G. run_body. rewrite G.
    unfold advance, qc_append; cbn. now rewrite <- !app_assoc.
  - assumption.
  - rewrite range_length. lia.
Qed.

Lemma standard_layer_short n_qubits (s : locals angle unit) :
  0 <= idx s ->
  (length (unread params s) < per_layer n_qubits)%nat ->
  fst (standard_layer n_qubits params s) = Raise IndexError.
Proof.
  intros Hi Hlen. unfold per_layer, pairs, singles in *.
  unfold standard_layer.
  destruct (Nat.lt_ge_cases (length (unread params s)) (Z.to_nat (n_qubits - 1)))
    as [Hs | Hs].
  - apply bind_raise.
    apply (@for_consume_short angle unit params
             (fun p s => advance s (cx_rz_cx p) 1)).
    + reflexivity.
    + intros i s0 theta G. run_body. rewrite G.
      unfold advance, qc_append; cbn. now rewrite <- !app_assoc.
    + intros i s0 e G. run_body. now rewrite G.
    + assumption.
    + now rewrite range_length.
  - erewrite bind_ok.
    2:{ apply (@for_consume_ok angle unit params
                 (fun p s => advance s (cx_rz_cx p) 1)).
        - reflexivity.
        - intros i s0 theta G. run_body. rewrite G.
          unfold advance, qc_append; cbn. now rewrite <- !app_assoc.
        - assumption.
        - now rewrite range_length. }
    rewrite fold_advance.
    assert (L1 : length (combine (range (n_qubits - 1)) (unread params s))
                 = Z.to_nat (n_qubits - 1)).
    { rewrite length_combine, range_length. lia. }
    rewrite L1.
    apply (@for_consume_short angle unit params
             (fun p s => advance s [rx_of p] 1)).
    + reflexivity.
    + intros i s0 theta G. run_body. rewrite G. reflexivity.
    + intros i s0 e G. run_body. now rewrite G.
    + cbn. lia.
    + rewrite unread_advance by assumption.
      rewrite range_length, length_skipn. lia.
Qed.

(** *** One rotation layer of the EGS builder *)

(** State update of one pass of the loop that fills [rz_ops]. *)
Lemma fold_collect : forall (l : list (Z * angle)) (s : locals angle (list (Z * angle))),
  fold_left (fun s p => {| qc := qc s; idx := idx s + 1;
                           extra := extra s ++ [(fst p + 1, snd p)] |}) l s =
  {| qc := qc s; idx := idx s + Z.of_nat (length l);
     extra := extra s ++ map (fun p => (fst p + 1, snd p)) l |}.
Proof.
  induction l as [| p l IH]; intros s; cbn [fold_left map length].
  - destruct s; cbn. now rewrite app_nil_r, Z.add_0_r.
  - rewrite IH; cbn [qc idx extra]. rewrite <- app_assoc. cbn [app].
    f_equal. lia.
Qed.

Lemma egs_layer_ok n_qubits (s : locals angle (list (Z * angle))) :
  0 <= idx s ->
  (per_layer n_qubits <= length (unread params s))%nat ->
  exists s', egs_layer n_qubits params s = (Ok tt, s')
             /\ reaches s s' (egs_layer_schedule n_qubits (unread params s))
                        (Z.of_nat (per_layer n_qubits)).
Proof.
  intros Hi Hlen. unfold per_layer, pairs, singles in *.
  assert (L1 : length (combine (range (n_qubits - 1)) (unread params s))
               = Z.to_nat (n_qubits - 1)).
  { rewrite length_combine, range_length. lia. }
  assert (L2 : length (combine (range n_qubits)
                 (skipn (Z.to_nat (n_qubits - 1)) (unread params s)))
               = Z.to_nat n_qubits).
  { rewrite length_combine, range_length, length_skipn. lia. }
  eexists. split.
  - unfold egs_layer.
    erewrite bind_ok by reflexivity.
    erewrite bind_ok.
    2:{ apply (@for_consume_ok angle _ params
                 (fun p s => {| qc := qc s; idx := idx s + 1;
                                extra := extra s ++ [(fst p + 1, snd p)] |})).
        - reflexivity.
        - intros i s0 theta G. run_body. now rewrite G.
        - assumption.
        - rewrite range_length. exact (Nat.le_trans _ _ _ (Nat.le_add_r _ _) Hlen). }
    rewrite fold_collect. cbn [qc idx extra app].
    change (unread params {| qc := qc s; idx := idx s; extra := [] |})
      with (unread params s).
    rewrite L1.
    erewrite bind_ok by reflexivity.
    erewrite bind_ok.
    2:{ apply (foreach_emit (fun x : Z * angle => Rz (snd x) (fst x))).
        intros [q theta] s0. run_body.
        unfold advance, qc_append; cbn. now rewrite Z.add_0_r. }
    erewrite bind_ok by reflexivity.
    erewrite bind_ok.
    2:{ apply (@for_consume_ok angle _ params (fun p s => advance s [rx_of p] 1)).
        - reflexivity.
        - intros i s0 theta G. run_body. rewrite G. reflexivity.
        - cbn. lia.
        - cbv [unread]; cbn [idx qc_barrier emit Stmt.modify snd advance].
          rewrite range_length, length_skipn.
          cbv [unread] in Hlen. rewrite length_skipn in Hlen. lia. }
    reflexivity.
  - rewrite fold_advance, flat_map_single.
    match goal with
    | |- context [unread params ?t] =>
        rewrite (@unread_shift _ _ _ params s t (Z.to_nat (n_qubits - 1)) Hi)
          by (cbn; lia)
    end.
    rewrite L2. split.
    + cbn. unfold qc_append; cbn. f_equal.
      rewrite <- !app_assoc. cbn [app].
      unfold egs_layer_schedule, rz_stage, rx_stage, pairs.
      rewrite map_map. reflexivity.
    + cbn. lia.
Qed.

Lemma egs_layer_short n_qubits (s : locals angle (list (Z * angle))) :
  0 <= idx s ->
  (length (unread params s) < per_layer n_qubits)%nat ->
  fst (egs_layer n_qubits params s) = Raise IndexError.
Proof.
  intros Hi Hlen. unfold per_layer, pairs, singles in *.
  unfold egs_layer.
  erewrite bind_ok by reflexivity.
  destruct (Nat.lt_ge_cases (length (unread params s)) (Z.to_nat (n_qubits - 1)))
    as [Hs | Hs].
  - apply bind_raise.
    apply (@for_consume_short angle _ params
             (fun p s => {| qc := qc s; idx := idx s + 1;
                            extra := extra s ++ [(fst p + 1, snd p)] |})).
    + reflexivity.
    + intros i s0 theta G. run_body. now rewrite G.
    + intros i s0 e G. run_body. now rewrite G.
    + assumption.
    + rewrite range_length. exact Hs.
  - erewrite bind_ok.
    2:{ apply (@for_consume_ok angle _ params
                 (fun p s => {| qc := qc s; idx := idx s + 1;
                                extra := extra s ++ [(fst p + 1, snd p)] |})).
        - reflexivity.
        - intros i s0 theta G. run_body. now rewrite G.
        - assumption.
        - rewrite range_length. exact Hs. }
    rewrite fold_collect. cbn [qc idx extra app].
    change (unread params {| qc := qc s; idx := idx s; extra := [] |})
      with (unread params s).
    assert (L1 : length (combine (range (n_qubits - 1)) (unread params s))
                 = Z.to_nat (n_qubits - 1)).
    { rewrite length_combine, range_length. lia. }
    rewrite L1.
    erewrite bind_ok by reflexivity.
    erewrite bind_ok.
    2:{ apply (foreach_emit (fun x : Z * angle => Rz (snd x) (fst x))).
        intros [q theta] s0. run_body.
        unfold advance, qc_append; cbn. now rewrite Z.add_0_r. }
    erewrite bind_ok by reflexivity.
    apply bind_raise.
    apply (@for_consume_short angle _ params (fun p s => advance s [rx_of p] 1)).
    + reflexivity.
    + intros i s0 theta G. run_body. rewrite G. reflexivity.
    + intros i s0 e G. run_body. now rewrite G.
    + cbn. lia.
    + match goal with
      | |- context [unread params ?t] =>
          rewrite (@unread_shift _ _ _ params s t (Z.to_nat (n_qubits - 1)) Hi)
            by (cbn; lia)
      end.
      rewrite range_length, length_skipn. lia.
Qed.

End Layers.

(** ** What the builders return *)

Section BuildersCorrect.

Variable angle : Type.
Variable params : list angle.

Lemma QuantumCircuit_new_ok (n : Z) :
  0 <= n ->
  QuantumCircuit_new angle n n =
  Ok {| num_qubits := n; num_clbits := n; data := [] |}.
Proof.
  intros Hn. unfold QuantumCircuit_new.
  destruct (Z.ltb_spec n 0); [lia | reflexivity].
Qed.

Lemma QuantumCircuit_new_negative (n : Z) :
  n < 0 -> QuantumCircuit_new angle n n = Raise CircuitError.
Proof.
  intros Hn. unfold QuantumCircuit_new.
  destruct (Z.ltb_spec n 0); [reflexivity | lia].
Qed.

Lemma h_loop X (s : locals angle X) n_qubits :
  Stmt.for_ (range n_qubits) (fun i => qc_h i) s =
  (Ok tt, advance s (h_stage n_qubits) 0).
Proof.
  rewrite (@for_emit angle X (fun i => [H i])).
  - now rewrite flat_map_single.
  - intros i s0. run_body. unfold advance, qc_append; cbn.
    now rewrite Z.add_0_r.
Qed.

Lemma standard_ok n_qubits layers :
  0 <= n_qubits ->
  (consumed n_qubits layers <= length params)%nat ->
  build_genomic_ansatz_standard n_qubits layers params =
  Ok {| num_qubits := n_qubits;
        num_clbits := n_qubits + n_qubits;
        data := standard_schedule n_qubits layers params |}.
Proof.
  intros Hn Hlen. unfold build_genomic_ansatz_standard, run_builder.
  rewrite QuantumCircuit_new_ok by assumption.
  erewrite bind_ok by apply h_loop.
  erewrite bind_ok by reflexivity.
  cbn [idx qc extra advance].
  match goal with
  | |- context [Stmt.bind _ _ ?t] => set (s1 := t)
  end.
  assert (LO : forall s : locals angle unit,
             0 <= idx s -> (per_layer n_qubits <= length (unread params s))%nat ->
             exists s', standard_layer n_qubits params s = (Ok tt, s')
                        /\ reaches s s'
                             (standard_layer_schedule n_qubits (unread params s))
                             (Z.of_nat (per_layer n_qubits))).
  { intros s Hi Hs. eexists. split.
    - now apply standard_layer_ok.
    - apply reaches_advance. }
  destruct (@layers_ok angle params unit _ _ _ LO (range layers) s1)
    as (s2 & E2 & [Q2 I2]).
  - cbn. lia.
  - rewrite range_length. exact Hlen.
  - erewrite bind_ok by exact E2.
    run_body. rewrite Q2. unfold qc_measure_all, standard_schedule; cbn.
    rewrite range_length, <- app_assoc. reflexivity.
Qed.

Lemma standard_short n_qubits layers :
  0 <= n_qubits ->
  (length params < consumed n_qubits layers)%nat ->
  build_genomic_ansatz_standard n_qubits layers params = Raise IndexError.
Proof.
  intros Hn Hlen. unfold build_genomic_ansatz_standard, run_builder.
  rewrite QuantumCircuit_new_ok by assumption.
  erewrite bind_ok by apply h_loop.
  erewrite bind_ok by reflexivity.
  cbn [idx qc extra advance].
  match goal with
  | |- context [Stmt.bind _ _ ?t] => set (s1 := t)
  end.
  assert (R : fst (Stmt.for_ (range layers)
                     (fun _ => standard_layer n_qubits params) s1)
              = Raise IndexError).
  { apply (@layers_short angle params unit _
             (standard_layer_schedule n_qubits) (per_layer n_qubits)).
    - intros s Hi Hs. eexists. split.
      + now apply standard_layer_ok.
      + apply reaches_advance.
    - intros s Hi Hs. now apply standard_layer_short.
    - cbn. lia.
    - rewrite range_length. exact Hlen. }
  apply (bind_raise _ (fun _ => measure_all)) in R.
  destruct (Stmt.bind _ _ s1) as [[u | e] s']; cbn in R; congruence.
Qed.

Lemma flat_map_const {A B} (c : list B) (l : list A) :
  flat_map (fun _ => c) l = concat (repeat c (length l)).
Proof. induction l as [| a l IH]; cbn; congruence. Qed.

Lemma cx_loops X (s : locals angle X) n_qubits layers :
  Stmt.for_ (range layers)
    (fun _ => Stmt.for_ (range (n_qubits - 1)) (fun i => qc_cx i (i + 1))) s =
  (Ok tt, advance s (cx_stage n_qubits (Z.to_nat layers)) 0).
Proof.
  rewrite (@for_emit angle X (fun _ => cx_chain n_qubits)).
  - now rewrite flat_map_const, range_length.
  - intros _ s0.
    rewrite (@for_emit angle X (fun i => [Cx i (i + 1)])).
    + now rewrite flat_map_single.
    + intros i s1. run_body. unfold advance, qc_append; cbn.
      now rewrite Z.add_0_r.
Qed.

Lemma egs_ok n_qubits layers :
  0 <= n_qubits ->
  (consumed n_qubits layers <= length params)%nat ->
  build_genomic_ansatz_egs n_qubits layers params =
  Ok {| num_qubits := n_qubits;
        num_clbits := n_qubits + n_qubits;
        data := egs_schedule n_qubits layers params |}.
Proof.
  intros Hn Hlen. unfold build_genomic_ansatz_egs, run_builder.
  rewrite QuantumCircuit_new_ok by assumption.
  erewrite bind_ok by apply h_loop.
  erewrite bind_ok by reflexivity.
  erewrite bind_ok by reflexivity.
  cbn [idx qc extra advance].
  match goal with
  | |- context [Stmt.bind _ _ ?t] => set (s1 := t)
  end.
  destruct (@layers_ok angle params _ _ _ _
              (@egs_layer_ok angle params n_qubits)
              (range layers) s1)
    as (s2 & E2 & [Q2 I2]).
  - cbn. lia.
  - rewrite range_length. exact Hlen.
  - erewrite bind_ok by exact E2.
    erewrite bind_ok by apply cx_loops.
    run_body. cbn [advance qc]. rewrite Q2.
    unfold qc_measure_all, egs_schedule, qc_append; cbn.
    rewrite range_length, <- !app_assoc. reflexivity.
Qed.

Lemma egs_short n_qubits layers :
  0 <= n_qubits ->
  (length params < consumed n_qubits layers)%nat ->
  build_genomic_ansatz_egs n_qubits layers params = Raise IndexError.
Proof.
  intros Hn Hlen. unfold build_genomic_ansatz_egs, run_builder.
  rewrite QuantumCircuit_new_ok by assumption.
  erewrite bind_ok by apply h_loop.
  erewrite bind_ok by reflexivity.
  erewrite bind_ok by reflexivity.
  cbn [idx qc extra advance].
  match goal with
  | |- context [Stmt.bind _ _ ?t] => set (s1 := t)
  end.
  assert (R : fst (Stmt.for_ (range layers)
                     (fun _ => egs_layer n_qubits params) s1)
              = Raise IndexError).
  { apply (@layers_short angle params _ _
             (egs_layer_schedule n_qubits) (per_layer n_qubits)).
    - intros s Hi Hs. now apply egs_layer_ok.
    - intros s Hi Hs. now apply egs_layer_short.
    - cbn. lia.
    - rewrite range_length. exact Hlen. }
  match goal with
  | |- context [Stmt.bind ?m ?k s1] =>
      pose proof (bind_raise m k s1 _ R) as R'
  end.
  destruct (Stmt.bind _ _ s1) as [[u | e] s']; cbn in R'; congruence.
Qed.

Lemma standard_negative n_qubits layers :
  n_qubits < 0 ->
  build_genomic_ansatz_standard n_qubits layers params = Raise CircuitError.
Proof.
  intros Hn. unfold build_genomic_ansatz_standard, run_builder.
  now rewrite QuantumCircuit_new_negative.
Qed.

Lemma egs_negative n_qubits layers :
  n_qubits < 0 ->
  build_genomic_ansatz_egs n_qubits layers params = Raise CircuitError.
Proof.
  intros Hn. unfold build_genomic_ansatz_egs, run_builder.
  now rewrite QuantumCircuit_new_negative.
Qed.

End BuildersCorrect.

(** The builders as total functions: a negative qubit count is refused
    by the circuit constructor, a vector shorter than what the loops
    read ends in [IndexError], anything else yields the schedule. *)
Lemma standard_spec {angle} n_qubits layers (params : list angle) :
  build_genomic_ansatz_standard n_qubits layers params =
  builder_result n_qubits layers params
    (standard_schedule n_qubits layers params).
Proof.
  unfold builder_result.
  destruct (Z.ltb_spec n_qubits 0) as [Hn | Hn].
  - now apply standard_negative.
  - destruct (Nat.ltb_spec (length params) (consumed n_qubits layers)).
    + now apply standard_short.
    + now apply standard_ok.
Qed.

Lemma egs_spec {angle} n_qubits layers (params : list angle) :
  build_genomic_ansatz_egs n_qubits layers params =
  builder_result n_qubits layers params
    (egs_schedule n_qubits layers params).
Proof.
  unfold builder_result.
  destruct (Z.ltb_spec n_qubits 0) as [Hn | Hn].
  - now apply egs_negative.
  - destruct (Nat.ltb_spec (length params) (consumed n_qubits layers)).
    + now apply egs_short.
    + now apply egs_ok.
Qed.

(** ** Facts about the schedules *)

Lemma filter_map_all {A B} (p : B -> bool) (g : A -> B) (l : list A) :
  (forall a, p (g a) = true) -> filter p (map g l) = map g l.
Proof.
  intros Hp. induction l as [| a l IH]; cbn; [reflexivity |].
  now rewrite Hp, IH.
Qed.

Lemma filter_map_none {A B} (p : B -> bool) (g : A -> B) (l : list A) :
  (forall a, p (g a) = false) -> filter p (map g l) = [].
Proof.
  intros Hp. induction l as [| a l IH]; cbn; [reflexivity |].
  now rewrite Hp, IH.
Qed.

Lemma filter_flat_map {A B} (p : B -> bool) (g : A -> list B) (l : list A) :
  filter p (flat_map g l) = flat_map (fun a => filter p (g a)) l.
Proof.
  induction l as [| a l IH]; cbn; [reflexivity |].
  now rewrite filter_app, IH.
Qed.

Lemma filter_concat_repeat {B} (p : B -> bool) (c : list B) (k : nat) :
  filter p (concat (repeat c k)) = concat (repeat (filter p c) k).
Proof.
  induction k as [| k IH]; cbn; [reflexivity |].
  now rewrite filter_app, IH.
Qed.

Lemma concat_repeat_nil {B} (k : nat) : concat (repeat (@nil B) k) = [].
Proof. induction k as [| k IH]; cbn; congruence. Qed.

Lemma map_snd_combine {A B} : forall (l : list A) (ps : list B),
  map snd (combine l ps) = firstn (length l) ps.
Proof.
  induction l as [| a l IH]; intros [| b ps]; cbn; try reflexivity.
  now rewrite IH.
Qed.

Lemma map_fst_combine {A B} : forall (l : list A) (ps : list B),
  (length l <= length ps)%nat -> map fst (combine l ps) = l.
Proof.
  induction l as [| a l IH]; intros [| b ps] Hlen; cbn in *; try reflexivity.
  - lia.
  - rewrite IH by lia. reflexivity.
Qed.

Lemma firstn_plus {A} : forall (a b : nat) (l : list A),
  firstn (a + b) l = firstn a l ++ firstn b (skipn a l).
Proof.
  induction a as [| a IH]; intros b l; cbn; [reflexivity |].
  destruct l as [| x l]; cbn.
  - now rewrite firstn_nil.
  - now rewrite IH.
Qed.

Lemma combine_firstn_enough {A B} : forall (l : list A) (k : nat) (ps : list B),
  (length l <= k)%nat -> combine l (firstn k ps) = combine l ps.
Proof.
  induction l as [| a l IH]; intros k ps Hk; cbn; [reflexivity |].
  destruct k as [| k]; cbn in Hk; [lia |].
  destruct ps as [| b ps]; cbn; [reflexivity |].
  rewrite IH by lia. reflexivity.
Qed.

Lemma skipn_firstn_plus {A} : forall (a b : nat) (l : list A),
  skipn a (firstn (a + b) l) = firstn b (skipn a l).
Proof.
  induction a as [| a IH]; intros b l; cbn; [reflexivity |].
  destruct l as [| x l]; cbn.
  - now rewrite firstn_nil.
  - apply IH.
Qed.

Section ScheduleFacts.

Variable angle : Type.

Implicit Types (ps : list angle) (n_qubits layers : Z).

Lemma filter_layers (p : instr angle -> bool) layer (w : nat) :
  forall L ps,
  filter p (layers_schedule layer w L ps) =
  layers_schedule (fun ps => filter p (layer ps)) w L ps.
Proof.
  induction L as [| L IH]; intros ps; cbn; [reflexivity |].
  now rewrite filter_app, IH.
Qed.

Lemma layers_schedule_ext (f g : list angle -> list (instr angle)) (w : nat) :
  (forall ps, (w <= length ps)%nat -> f ps = g ps) ->
  forall L ps, (L * w <= length ps)%nat ->
  layers_schedule f w L ps = layers_schedule g w L ps.
Proof.
  intros Hfg. induction L as [| L IH]; intros ps Hlen; cbn; [reflexivity |].
  cbn in Hlen.
  rewrite Hfg by lia. rewrite IH; [reflexivity |].
  rewrite length_skipn. lia.
Qed.

Lemma layers_schedule_eq (f g : list angle -> list (instr angle)) (w : nat) :
  (forall ps, f ps = g ps) ->
  forall L ps, layers_schedule f w L ps = layers_schedule g w L ps.
Proof.
  intros Hfg. induction L as [| L IH]; intros ps; cbn; [reflexivity |].
  now rewrite Hfg, IH.
Qed.

Lemma layers_schedule_const (c : list (instr angle)) (w : nat) :
  forall L ps, layers_schedule (fun _ => c) w L ps = concat (repeat c L).
Proof.
  induction L as [| L IH]; intros ps; cbn; [reflexivity |].
  now rewrite IH.
Qed.

Lemma layers_schedule_firstn (layer : list angle -> list (instr angle)) (w : nat) :
  (forall k ps, (w <= k)%nat -> layer (firstn k ps) = layer ps) ->
  forall L k ps, (L * w <= k)%nat ->
  layers_schedule layer w L (firstn k ps) = layers_schedule layer w L ps.
Proof.
  intros Hl. induction L as [| L IH]; intros k ps Hk; cbn; [reflexivity |].
  cbn in Hk. rewrite Hl by lia.
  replace k with (w + (k - w))%nat at 1 by lia.
  rewrite skipn_firstn_plus, IH by lia. reflexivity.
Qed.

(** *** Rotations *)

Lemma rotations_app (l1 l2 : list (instr angle)) :
  rotations (l1 ++ l2) = rotations l1 ++ rotations l2.
Proof. apply filter_app. Qed.

Lemma rotations_cx_rz_cx (l : list (Z * angle)) :
  rotations (flat_map cx_rz_cx l) = map rz_of l.
Proof.
  unfold rotations. rewrite filter_flat_map. cbn.
  apply (flat_map_single rz_of).
Qed.

Lemma rotations_rz_stage n_qubits ps :
  rotations (rz_stage n_qubits ps) = rz_stage n_qubits ps.
Proof. apply filter_map_all. reflexivity. Qed.

Lemma rotations_rx_stage n_qubits ps :
  rotations (rx_stage n_qubits ps) = rx_stage n_qubits ps.
Proof. apply filter_map_all. reflexivity. Qed.

Lemma rotations_h_stage n_qubits : rotations (@h_stage angle n_qubits) = [].
Proof. apply filter_map_none. reflexivity. Qed.

Lemma rotations_measure_all n_qubits :
  rotations (measure_all_instrs angle n_qubits) = [].
Proof. unfold measure_all_instrs. cbn. apply filter_map_none. reflexivity. Qed.

Lemma rotations_cx_stage n_qubits L : rotations (@cx_stage angle n_qubits L) = [].
Proof.
  unfold rotations, cx_stage. rewrite filter_concat_repeat.
  unfold cx_chain. rewrite filter_map_none by reflexivity.
  apply concat_repeat_nil.
Qed.

Lemma rotations_standard_layer n_qubits ps :
  rotations (standard_layer_schedule n_qubits ps) = rotation_layer n_qubits ps.
Proof.
  unfold standard_layer_schedule, rotation_layer.
  now rewrite rotations_app, rotations_cx_rz_cx, rotations_rx_stage.
Qed.

Lemma rotations_egs_layer n_qubits ps :
  rotations (egs_layer_schedule n_qubits ps) = rotation_layer n_qubits ps.
Proof.
  unfold egs_layer_schedule, rotation_layer.
  rewrite !rotations_app, rotations_rz_stage, rotations_rx_stage.
  cbn. now rewrite app_nil_r.
Qed.

Lemma rotations_standard_schedule n_qubits layers ps :
  rotations (standard_schedule n_qubits layers ps) = rotation_plan n_qubits layers ps.
Proof.
  unfold standard_schedule, rotation_plan.
  rewrite !rotations_app, rotations_h_stage, rotations_measure_all, app_nil_r.
  cbn [app]. unfold rotations at 1. rewrite filter_layers.
  apply layers_schedule_eq. intros ps0. apply rotations_standard_layer.
Qed.

Lemma rotations_egs_schedule n_qubits layers ps :
  rotations (egs_schedule n_qubits layers ps) = rotation_plan n_qubits layers ps.
Proof.
  unfold egs_schedule, rotation_plan.
  rewrite !rotations_app, rotations_h_stage, rotations_measure_all,
    rotations_cx_stage, !app_nil_r.
  cbn [app rotations filter is_rotation]. unfold rotations at 1. rewrite filter_layers.
  apply layers_schedule_eq. intros ps0. apply rotations_egs_layer.
Qed.

(** *** Angles, in circuit order *)

Lemma angles_app (l1 l2 : list (instr angle)) :
  angles (l1 ++ l2) = angles l1 ++ angles l2.
Proof.
  induction l1 as [| g l1 IH]; cbn; [reflexivity |].
  destruct (angle_of g); cbn; now rewrite IH.
Qed.

Lemma angles_rotations (l : list (instr angle)) :
  angles (rotations l) = angles l.
Proof.
  unfold rotations.
  induction l as [| g l IH]; cbn; [reflexivity |].
  destruct g; cbn; now rewrite IH.
Qed.

Lemma angles_rz_stage n_qubits ps :
  angles (rz_stage n_qubits ps) = firstn (pairs n_qubits) ps.
Proof.
  unfold rz_stage, pairs. rewrite <- range_length, <- map_snd_combine.
  induction (combine (range (n_qubits - 1)) ps) as [| p l IH]; cbn; congruence.
Qed.

Lemma angles_rx_stage n_qubits ps :
  angles (rx_stage n_qubits ps) =
  firstn (singles n_qubits) (skipn (pairs n_qubits) ps).
Proof.
  unfold rx_stage, singles. rewrite <- range_length, <- map_snd_combine.
  induction (combine (range n_qubits) (skipn (pairs n_qubits) ps))
    as [| p l IH]; cbn; congruence.
Qed.

Lemma angles_rotation_layer n_qubits ps :
  angles (rotation_layer n_qubits ps) = firstn (per_layer n_qubits) ps.
Proof.
  unfold rotation_layer, per_layer.
  now rewrite angles_app, angles_rz_stage, angles_rx_stage, firstn_plus.
Qed.

Lemma angles_rotation_plan n_qubits layers ps :
  angles (rotation_plan n_qubits layers ps) = firstn (consumed n_qubits layers) ps.
Proof.
  unfold rotation_plan, consumed.
  generalize (Z.to_nat layers) as L. intros L. revert ps.
  induction L as [| L IH]; intros ps; cbn [layers_schedule].
  - reflexivity.
  - rewrite angles_app, angles_rotation_layer, IH.
    cbn [Nat.mul]. now rewrite firstn_plus.
Qed.

End ScheduleFacts.

(** ** Parameter counts *)

Lemma consumed_n_params n_qubits layers :
  1 <= n_qubits -> 0 <= layers ->
  Z.of_nat (consumed n_qubits layers) = n_params n_qubits layers.
Proof.
  intros Hn Hl. unfold consumed, per_layer, pairs, singles, n_params.
  rewrite Nat2Z.inj_mul, Nat2Z.inj_add, !Z2Nat.id by lia. ring.
Qed.

(** An exact-length vector is exactly what the loops read. *)
Lemma valid_consumed {A} n_qubits layers (ps : list A) :
  0 <= n_qubits -> 0 <= layers ->
  Z.of_nat (length ps) = n_params n_qubits layers ->
  consumed n_qubits layers = length ps.
Proof.
  intros Hn Hl Hlen.
  destruct (Z.eq_dec layers 0) as [-> | Hl0].
  - unfold n_params in Hlen. cbn in *. lia.
  - assert (1 <= n_qubits) by (unfold n_params in Hlen; nia).
    apply Nat2Z.inj. rewrite consumed_n_params by lia. lia.
Qed.

(** A vector shorter than required can only be asked for by a
    configuration with at least one qubit and one layer. *)
Lemma short_consumed {A} n_qubits layers (ps : list A) :
  0 <= layers ->
  Z.of_nat (length ps) < n_params n_qubits layers ->
  1 <= n_qubits /\ (length ps < consumed n_qubits layers)%nat.
Proof.
  intros Hl Hlen.
  assert (1 <= n_qubits) by (unfold n_params in Hlen; nia).
  split; [assumption |].
  apply Nat2Z.inj_lt. rewrite consumed_n_params by lia. lia.
Qed.

Lemma indexed_length {A} (ps : list A) : length (indexed ps) = length ps.
Proof. unfold indexed. rewrite length_combine, length_seq. lia. Qed.

(** ** C3: one parameter, one rotation, the same in both variants *)

(** C3.  On every valid input both builders succeed, and the rotation
    gates of the two circuits, read in circuit order, are one and the
    same list: layer after layer, [n_qubits - 1] pair rotations [Rz] on
    qubits 1, 2, ... followed by [n_qubits] mixing rotations [Rx] on
    qubits 0, 1, ...; the N-th rotation of that list carries parameter
    N, and every parameter is carried by exactly one rotation.  The
    statement holds for parameters of any type, in particular for a
    vector whose entries are tagged with their index. *)
Theorem rotation_binding_identical :
  forall (angle : Type) (n_qubits layers : Z) (params : list angle),
  0 <= n_qubits -> 0 <= layers ->
  Z.of_nat (length params) = n_params n_qubits layers ->
  exists cs ce,
    build_genomic_ansatz_standard n_qubits layers params = Ok cs
    /\ build_genomic_ansatz_egs n_qubits layers params = Ok ce
    /\ rotations (data cs) = rotation_plan n_qubits layers params
    /\ rotations (data ce) = rotation_plan n_qubits layers params
    /\ angles (rotation_plan n_qubits layers params) = params.
Proof.
  intros angle n_qubits layers params Hn Hl Hlen.
  pose proof (valid_consumed n_qubits layers params Hn Hl Hlen) as Hc.
  do 2 eexists. split; [| split; [| split; [| split]]].
  - apply standard_ok; [assumption | lia].
  - apply egs_ok; [assumption | lia].
  - apply rotations_standard_schedule.
  - apply rotations_egs_schedule.
  - rewrite angles_rotation_plan, Hc. apply firstn_all.
Qed.

Lemma rotation_binding_identical_witness :
  exists cs ce,
    build_genomic_ansatz_standard 2 1 (indexed [10; 20; 30]) = Ok cs
    /\ build_genomic_ansatz_egs 2 1 (indexed [10; 20; 30]) = Ok ce
    /\ rotations (data cs) = rotation_plan 2 1 (indexed [10; 20; 30])
    /\ rotations (data ce) = rotation_plan 2 1 (indexed [10; 20; 30])
    /\ angles (rotation_plan 2 1 (indexed [10; 20; 30])) = indexed [10; 20; 30].
Proof.
  apply (rotation_binding_identical (nat * Z) 2 1 (indexed [10; 20; 30]));
    [lia | lia | reflexivity].
Defined.

(** ** C9: entries past the required length are never read *)

Lemma rx_stage_firstn {angle} n_qubits (k : nat) (ps : list angle) :
  (per_layer n_qubits <= k)%nat ->
  rx_stage n_qubits (firstn k ps) = rx_stage n_qubits ps.
Proof.
  intros Hk. unfold rx_stage, per_layer in *.
  replace k with (pairs n_qubits + (k - pairs n_qubits))%nat by lia.
  rewrite skipn_firstn_plus, combine_firstn_enough; [reflexivity |].
  rewrite range_length. unfold singles in Hk. lia.
Qed.

Lemma pair_combine_firstn {angle} n_qubits (k : nat) (ps : list angle) :
  (per_layer n_qubits <= k)%nat ->
  combine (range (n_qubits - 1)) (firstn k ps) = combine (range (n_qubits - 1)) ps.
Proof.
  intros Hk. apply combine_firstn_enough.
  rewrite range_length. unfold per_layer, pairs in Hk. lia.
Qed.

Lemma standard_schedule_firstn {angle} n_qubits layers (k : nat) (ps : list angle) :
  (consumed n_qubits layers <= k)%nat ->
  standard_schedule n_qubits layers (firstn k ps) =
  standard_schedule n_qubits layers ps.
Proof.
  intros Hk. unfold standard_schedule. do 2 f_equal.
  apply layers_schedule_firstn; [| exact Hk].
  intros k0 ps0 Hk0. unfold standard_layer_schedule.
  now rewrite pair_combine_firstn, rx_stage_firstn.
Qed.

Lemma egs_schedule_firstn {angle} n_qubits layers (k : nat) (ps : list angle) :
  (consumed n_qubits layers <= k)%nat ->
  egs_schedule n_qubits layers (firstn k ps) =
  egs_schedule n_qubits layers ps.
Proof.
  intros Hk. unfold egs_schedule. do 3 f_equal.
  apply layers_schedule_firstn; [| exact Hk].
  intros k0 ps0 Hk0. unfold egs_layer_schedule, rz_stage.
  now rewrite pair_combine_firstn, rx_stage_firstn.
Qed.

Lemma angles_standard_schedule {angle} n_qubits layers (ps : list angle) :
  angles (standard_schedule n_qubits layers ps) =
  firstn (consumed n_qubits layers) ps.
Proof.
  now rewrite <- angles_rotations, rotations_standard_schedule,
    angles_rotation_plan.
Qed.

Lemma angles_egs_schedule {angle} n_qubits layers (ps : list angle) :
  angles (egs_schedule n_qubits layers ps) =
  firstn (consumed n_qubits layers) ps.
Proof.
  now rewrite <- angles_rotations, rotations_egs_schedule,
    angles_rotation_plan.
Qed.

(** C9.  With a parameter vector strictly longer than
    [n_layers * (n_qubits + (n_qubits - 1))], both builders return a
    circuit, the same circuit they return on the vector cut to that
    length; the angles in the circuit are, in order, exactly the
    entries before the cut. *)
Theorem surplus_parameters_ignored :
  forall (angle : Type) (n_qubits layers : Z) (params : list angle),
  1 <= n_qubits -> 0 <= layers ->
  n_params n_qubits layers < Z.of_nat (length params) ->
  let required := Z.to_nat (n_params n_qubits layers) in
  exists cs ce,
    build_genomic_ansatz_standard n_qubits layers params = Ok cs
    /\ build_genomic_ansatz_egs n_qubits layers params = Ok ce
    /\ build_genomic_ansatz_standard n_qubits layers (firstn required params) = Ok cs
    /\ build_genomic_ansatz_egs n_qubits layers (firstn required params) = Ok ce
    /\ angles (data cs) = firstn required params
    /\ angles (data ce) = firstn required params.
Proof.
  intros angle n_qubits layers params Hn Hl Hlen required.
  assert (Hc : consumed n_qubits layers = required).
  { unfold required. rewrite <- consumed_n_params by assumption.
    now rewrite Nat2Z.id. }
  assert (Hle : (required <= length params)%nat).
  { rewrite <- Hc. apply Nat2Z.inj_le.
    rewrite consumed_n_params by assumption. lia. }
  do 2 eexists. split; [| split; [| split; [| split; [| split]]]].
  - apply standard_ok; lia.
  - apply egs_ok; lia.
  - rewrite standard_ok; [| lia | rewrite length_firstn; lia].
    now rewrite standard_schedule_firstn by lia.
  - rewrite egs_ok; [| lia | rewrite length_firstn; lia].
    now rewrite egs_schedule_firstn by lia.
  - cbn [data]. now rewrite angles_standard_schedule, Hc.
  - cbn [data]. now rewrite angles_egs_schedule, Hc.
Qed.

Lemma surplus_parameters_ignored_witness :
  exists cs ce,
    build_genomic_ansatz_standard 2 1 [10; 20; 30; 40; 50] = Ok cs
    /\ build_genomic_ansatz_egs 2 1 [10; 20; 30; 40; 50] = Ok ce
    /\ build_genomic_ansatz_standard 2 1 [10; 20; 30] = Ok cs
    /\ build_genomic_ansatz_egs 2 1 [10; 20; 30] = Ok ce
    /\ angles (data cs) = [10; 20; 30]
    /\ angles (data ce) = [10; 20; 30].
Proof.
  apply (surplus_parameters_ignored Z 2 1 [10; 20; 30; 40; 50]);
    [lia | lia | vm_compute; reflexivity].
Defined.

(** ** C8: no layers *)

Lemma gates_h_stage {angle} n_qubits : gates (@h_stage angle n_qubits) = h_stage n_qubits.
Proof. apply filter_map_all. reflexivity. Qed.

Lemma gates_measures {angle} n_qubits :
  gates (measure_all_instrs angle n_qubits) =
  map (fun q => Measure q q) (range n_qubits).
Proof. unfold measure_all_instrs. cbn. apply filter_map_all. reflexivity. Qed.

(** C8.  With [n_layers = 0] the required parameter count is 0, and
    whatever vector is passed (the empty one included) both builders
    return a circuit made of one [H] per qubit and the measurement of
    every qubit [q] into [meas[q]], with the barrier [measure_all] puts
    before the measurements (and, in the EGS circuit, the barrier that
    closes the superposition stage): no rotation, no entangling gate. *)
Theorem zero_layers_circuit :
  forall (angle : Type) (n_qubits : Z) (params : list angle),
  0 <= n_qubits ->
  n_params n_qubits 0 = 0
  /\ exists cs ce,
       build_genomic_ansatz_standard n_qubits 0 params = Ok cs
       /\ build_genomic_ansatz_egs n_qubits 0 params = Ok ce
       /\ data cs = h_stage n_qubits ++ measure_all_instrs angle n_qubits
       /\ data ce = h_stage n_qubits ++ [Barrier] ++ measure_all_instrs angle n_qubits
       /\ gates (data cs) = h_stage n_qubits ++ map (fun q => Measure q q) (range n_qubits)
       /\ gates (data ce) = h_stage n_qubits ++ map (fun q => Measure q q) (range n_qubits)
       /\ rotations (data cs) = [] /\ entanglers (data cs) = []
       /\ rotations (data ce) = [] /\ entanglers (data ce) = [].
Proof.
  intros angle n_qubits params Hn. split; [reflexivity |].
  do 2 eexists.
  split; [apply standard_ok; [assumption | cbn; lia] |].
  split; [apply egs_ok; [assumption | cbn; lia] |].
  cbn [data]. unfold standard_schedule, egs_schedule.
  cbn [Z.to_nat layers_schedule cx_stage repeat concat app].
  repeat split.
  - unfold gates. rewrite filter_app.
    fold (gates (@h_stage angle n_qubits)).
    fold (gates (measure_all_instrs angle n_qubits)).
    now rewrite gates_h_stage, gates_measures.
  - unfold gates. rewrite filter_app. cbn [filter is_barrier negb].
    fold (gates (@h_stage angle n_qubits)).
    fold (gates (measure_all_instrs angle n_qubits)).
    now rewrite gates_h_stage, gates_measures.
  - now rewrite rotations_app, rotations_h_stage, rotations_measure_all.
  - unfold entanglers, measure_all_instrs, h_stage. rewrite filter_app. cbn.
    now rewrite !filter_map_none by reflexivity.
  - rewrite rotations_app, rotations_h_stage. cbn.
    apply rotations_measure_all.
  - unfold entanglers, measure_all_instrs, h_stage. rewrite filter_app. cbn.
    now rewrite !filter_map_none by reflexivity.
Qed.

Lemma zero_layers_circuit_witness :
  n_params 3 0 = 0
  /\ exists cs ce,
       build_genomic_ansatz_standard 3 0 (@nil Z) = Ok cs
       /\ build_genomic_ansatz_egs 3 0 (@nil Z) = Ok ce
       /\ data cs = h_stage 3 ++ measure_all_instrs Z 3
       /\ data ce = h_stage 3 ++ [Barrier] ++ measure_all_instrs Z 3
       /\ gates (data cs) = h_stage 3 ++ map (fun q => Measure q q) (range 3)
       /\ gates (data ce) = h_stage 3 ++ map (fun q => Measure q q) (range 3)
       /\ rotations (data cs) = [] /\ entanglers (data cs) = []
       /\ rotations (data ce) = [] /\ entanglers (data ce) = [].
Proof. apply (zero_layers_circuit Z 3 []). lia. Defined.

(** ** C2: a vector that is too short *)

(** C2, as stated, fails: on a two-qubit, one-layer configuration with
    two parameters instead of three, both builders raise [IndexError],
    not [InsufficientParametersError]. *)
Lemma short_vector_raises_index_error_example :
  Z.of_nat (length [10; 20]) < n_params 2 1
  /\ build_genomic_ansatz_standard 2 1 [10; 20] = Raise IndexError
  /\ build_genomic_ansatz_egs 2 1 [10; 20] = Raise IndexError
  /\ build_genomic_ansatz_standard 2 1 [10; 20] <> Raise InsufficientParametersError
  /\ build_genomic_ansatz_egs 2 1 [10; 20] <> Raise InsufficientParametersError.
Proof.
  repeat split; try (vm_compute; reflexivity); vm_compute; discriminate.
Qed.

(** C2, amended.  For a non-negative layer count and a parameter
    vector shorter than [n_layers * (n_qubits + (n_qubits - 1))], each
    builder raises [IndexError] at the first read past the end of the
    vector, and returns no circuit. *)
Theorem short_vector_raises_index_error :
  forall (angle : Type) (n_qubits layers : Z) (params : list angle),
  0 <= layers ->
  Z.of_nat (length params) < n_params n_qubits layers ->
  build_genomic_ansatz_standard n_qubits layers params = Raise IndexError
  /\ build_genomic_ansatz_egs n_qubits layers params = Raise IndexError.
Proof.
  intros angle n_qubits layers params Hl Hlen.
  destruct (short_consumed n_qubits layers params Hl Hlen) as [Hn Hc].
  split.
  - apply standard_short; [lia | exact Hc].
  - apply egs_short; [lia | exact Hc].
Qed.

Lemma short_vector_raises_index_error_witness :
  build_genomic_ansatz_standard 2 1 [10; 20] = Raise IndexError
  /\ build_genomic_ansatz_egs 2 1 [10; 20] = Raise IndexError.
Proof.
  apply (short_vector_raises_index_error Z 2 1 [10; 20]);
    [lia | vm_compute; reflexivity].
Defined.

(** ** C1: the gates of the two variants *)

Section GateClasses.

Variable angle : Type.

Implicit Types (ps : list angle) (n_qubits layers : Z).

Lemma flat_map_nil {A B} (l : list A) : flat_map (fun _ : A => @nil B) l = [].
Proof. induction l; cbn; congruence. Qed.

Lemma flat_map_map {A B C} (f : A -> B) (g : B -> list C) (l : list A) :
  flat_map g (map f l) = flat_map (fun a => g (f a)) l.
Proof. induction l as [| a l IH]; cbn; congruence. Qed.

Lemma entanglers_app (l1 l2 : list (instr angle)) :
  entanglers (l1 ++ l2) = entanglers l1 ++ entanglers l2.
Proof. apply filter_app. Qed.

Lemma entanglers_h_stage n_qubits : entanglers (@h_stage angle n_qubits) = [].
Proof. apply filter_map_none. reflexivity. Qed.

Lemma entanglers_measure_all n_qubits :
  entanglers (measure_all_instrs angle n_qubits) = [].
Proof. unfold measure_all_instrs. cbn. apply filter_map_none. reflexivity. Qed.

Lemma entanglers_rz_stage n_qubits ps : entanglers (rz_stage n_qubits ps) = [].
Proof. apply filter_map_none. reflexivity. Qed.

Lemma entanglers_rx_stage n_qubits ps : entanglers (rx_stage n_qubits ps) = [].
Proof. apply filter_map_none. reflexivity. Qed.

Lemma entanglers_cx_stage n_qubits L :
  entanglers (@cx_stage angle n_qubits L) = cx_stage n_qubits L.
Proof.
  unfold entanglers, cx_stage. rewrite filter_concat_repeat.
  unfold cx_chain. now rewrite filter_map_all by reflexivity.
Qed.

Lemma entanglers_standard_layer n_qubits ps :
  (per_layer n_qubits <= length ps)%nat ->
  entanglers (standard_layer_schedule n_qubits ps) = cx_twice n_qubits.
Proof.
  intros Hlen. unfold standard_layer_schedule.
  rewrite entanglers_app, entanglers_rx_stage, app_nil_r.
  unfold entanglers. rewrite filter_flat_map. cbn.
  unfold cx_twice.
  assert (Hfst : map fst (combine (range (n_qubits - 1)) ps) = range (n_qubits - 1)).
  { apply map_fst_combine. rewrite range_length.
    unfold per_layer, pairs in Hlen. lia. }
  rewrite <- Hfst at 2. rewrite flat_map_map. reflexivity.
Qed.

Lemma entanglers_egs_layer n_qubits ps :
  entanglers (egs_layer_schedule n_qubits ps) = [].
Proof.
  unfold egs_layer_schedule.
  now rewrite !entanglers_app, entanglers_rz_stage, entanglers_rx_stage.
Qed.

Lemma entanglers_standard_schedule n_qubits layers ps :
  (consumed n_qubits layers <= length ps)%nat ->
  entanglers (standard_schedule n_qubits layers ps) =
  concat (repeat (cx_twice n_qubits) (Z.to_nat layers)).
Proof.
  intros Hlen. unfold standard_schedule.
  rewrite !entanglers_app, entanglers_h_stage, entanglers_measure_all, app_nil_r.
  cbn [app]. unfold entanglers at 1. rewrite filter_layers.
  rewrite (@layers_schedule_ext angle _ (fun _ => cx_twice n_qubits)).
  - apply layers_schedule_const.
  - intros ps0 H0. now apply entanglers_standard_layer.
  - exact Hlen.
Qed.

Lemma entanglers_egs_layers n_qubits L ps :
  entanglers (layers_schedule (egs_layer_schedule n_qubits)
                (per_layer n_qubits) L ps) = [].
Proof.
  unfold entanglers. rewrite filter_layers.
  rewrite (@layers_schedule_eq angle _ (fun _ => [])).
  - rewrite layers_schedule_const. apply concat_repeat_nil.
  - intros ps0. apply entanglers_egs_layer.
Qed.

Lemma entanglers_egs_schedule n_qubits layers ps :
  entanglers (egs_schedule n_qubits layers ps) =
  cx_stage n_qubits (Z.to_nat layers).
Proof.
  unfold egs_schedule.
  rewrite !entanglers_app, entanglers_h_stage, entanglers_measure_all,
    entanglers_egs_layers, entanglers_cx_stage, app_nil_r.
  reflexivity.
Qed.

Lemma cx_twice_doubles n_qubits :
  Permutation (@cx_twice angle n_qubits) (cx_chain n_qubits ++ cx_chain n_qubits).
Proof.
  unfold cx_twice, cx_chain.
  induction (range (n_qubits - 1)) as [| i l IH]; cbn; [constructor |].
  constructor. rewrite IH. apply Permutation_middle.
Qed.

Lemma repeat_doubles (a c : list (instr angle)) (L : nat) :
  Permutation a (c ++ c) ->
  Permutation (concat (repeat a L))
              (concat (repeat c L) ++ concat (repeat c L)).
Proof.
  intros Hac. induction L as [| L IH]; cbn; [constructor |].
  rewrite IH, Hac, <- !app_assoc.
  apply Permutation_app_head.
  rewrite !app_assoc. apply Permutation_app_tail.
  apply Permutation_app_comm.
Qed.

(** *** Gates that are neither rotations nor entanglers *)

Lemma fixed_gates_app (l1 l2 : list (instr angle)) :
  fixed_gates (l1 ++ l2) = fixed_gates l1 ++ fixed_gates l2.
Proof. apply filter_app. Qed.

Lemma fixed_gates_standard_layer n_qubits ps :
  fixed_gates (standard_layer_schedule n_qubits ps) = [].
Proof.
  unfold standard_layer_schedule, rx_stage.
  rewrite fixed_gates_app. unfold fixed_gates.
  rewrite filter_flat_map, filter_map_none by reflexivity.
  cbn. now rewrite flat_map_nil.
Qed.

Lemma fixed_gates_egs_layer n_qubits ps :
  fixed_gates (egs_layer_schedule n_qubits ps) = [].
Proof.
  unfold egs_layer_schedule, rz_stage, rx_stage.
  rewrite !fixed_gates_app. unfold fixed_gates.
  now rewrite !filter_map_none by reflexivity.
Qed.

Lemma fixed_gates_layers layer (w L : nat) ps :
  (forall ps0, fixed_gates (layer ps0) = []) ->
  fixed_gates (layers_schedule layer w L ps) = [].
Proof.
  intros Hl. unfold fixed_gates at 1. rewrite filter_layers.
  rewrite (@layers_schedule_eq angle _ (fun _ => [])) by exact Hl.
  rewrite layers_schedule_const. apply concat_repeat_nil.
Qed.

Lemma fixed_gates_cx_stage n_qubits L : fixed_gates (@cx_stage angle n_qubits L) = [].
Proof.
  unfold fixed_gates, cx_stage. rewrite filter_concat_repeat.
  unfold cx_chain. rewrite filter_map_none by reflexivity.
  apply concat_repeat_nil.
Qed.

Lemma fixed_gates_schedules n_qubits layers ps :
  fixed_gates (standard_schedule n_qubits layers ps) =
  fixed_gates (egs_schedule n_qubits layers ps).
Proof.
  unfold standard_schedule, egs_schedule.
  rewrite !fixed_gates_app.
  rewrite (fixed_gates_layers _ _ _ _ (fixed_gates_standard_layer n_qubits)).
  rewrite (fixed_gates_layers _ _ _ _ (fixed_gates_egs_layer n_qubits)).
  rewrite fixed_gates_cx_stage. reflexivity.
Qed.

(** The gates of a circuit fall into the three classes. *)
Lemma gates_by_class (l : list (instr angle)) :
  Permutation (gates l) (fixed_gates l ++ rotations l ++ entanglers l).
Proof.
  unfold gates, fixed_gates, rotations, entanglers.
  induction l as [| g l IH]; cbn; [constructor |].
  destruct g; cbn.
  - constructor; exact IH.
  - rewrite IH. apply Permutation_middle.
  - rewrite IH. apply Permutation_middle.
  - rewrite IH, !app_assoc. apply Permutation_middle.
  - exact IH.
  - constructor; exact IH.
Qed.

End GateClasses.

(** C1, as stated, fails: on two qubits and one layer the standard
    circuit holds the gate [cx 0 1] twice and the EGS circuit holds it
    once, so neither the gates nor the entangling gates of the two
    circuits are equal as multisets (and the instruction lists,
    barriers included, are not either). *)
Lemma gate_multisets_differ_example :
  Z.of_nat (length [10; 20; 30]) = n_params 2 1
  /\ exists cs ce,
       build_genomic_ansatz_standard 2 1 [10; 20; 30] = Ok cs
       /\ build_genomic_ansatz_egs 2 1 [10; 20; 30] = Ok ce
       /\ entanglers (data cs) = [Cx 0 1; Cx 0 1]
       /\ entanglers (data ce) = [Cx 0 1]
       /\ ~ Permutation (entanglers (data cs)) (entanglers (data ce))
       /\ ~ Permutation (gates (data cs)) (gates (data ce))
       /\ ~ Permutation (data cs) (data ce).
Proof.
  split; [reflexivity |].
  do 2 eexists.
  split; [vm_compute; reflexivity |].
  split; [vm_compute; reflexivity |].
  split; [reflexivity |].
  split; [reflexivity |].
  repeat split; intros HP; apply Permutation_length in HP; discriminate HP.
Qed.

(** ** C4: the stages of the EGS circuit *)

Section EgsStages.

Variable angle : Type.

Implicit Types (ps : list angle) (n_qubits layers : Z).

Lemma forallb_map_all {A B} (p : B -> bool) (g : A -> B) (l : list A) :
  (forall a, p (g a) = true) -> forallb p (map g l) = true.
Proof.
  intros Hp. induction l as [| a l IH]; cbn; [reflexivity |].
  now rewrite Hp, IH.
Qed.

Lemma egs_layers_render n_qubits : forall L ps,
  layers_schedule (egs_layer_schedule n_qubits) (per_layer n_qubits) L ps =
  flat_map render_stage (egs_stages n_qubits L ps).
Proof.
  induction L as [| L IH]; intros ps; cbn [layers_schedule egs_stages flat_map].
  - reflexivity.
  - now rewrite IH.
Qed.

Lemma egs_stages_length n_qubits : forall L ps,
  length (egs_stages n_qubits L ps) = L.
Proof. induction L as [| L IH]; intros ps; cbn; [reflexivity | now rewrite IH]. Qed.

Lemma rz_stage_length n_qubits ps :
  (per_layer n_qubits <= length ps)%nat ->
  length (rz_stage n_qubits ps) = pairs n_qubits.
Proof.
  intros Hlen. unfold rz_stage.
  rewrite length_map, length_combine, range_length.
  unfold per_layer, pairs in *. lia.
Qed.

Lemma rx_stage_length n_qubits ps :
  (per_layer n_qubits <= length ps)%nat ->
  length (rx_stage n_qubits ps) = singles n_qubits.
Proof.
  intros Hlen. unfold rx_stage.
  rewrite length_map, length_combine, range_length, length_skipn.
  unfold per_layer, singles in *. lia.
Qed.

Lemma egs_stages_ok n_qubits : forall L ps,
  (L * per_layer n_qubits <= length ps)%nat ->
  forallb (stage_ok n_qubits) (egs_stages n_qubits L ps) = true.
Proof.
  induction L as [| L IH]; intros ps Hlen; cbn [egs_stages forallb];
    [reflexivity |].
  cbn [Nat.mul] in Hlen.
  rewrite IH by (rewrite length_skipn; lia).
  unfold stage_ok; cbn [fst snd].
  rewrite rz_stage_length, rx_stage_length by lia.
  rewrite !Nat.eqb_refl.
  unfold rz_stage, rx_stage.
  now rewrite !forallb_map_all by reflexivity.
Qed.

Lemma cx_stage_all_cx n_qubits L :
  forallb is_cx (@cx_stage angle n_qubits L) = true.
Proof.
  unfold cx_stage. induction L as [| L IH]; cbn; [reflexivity |].
  rewrite forallb_app, IH. unfold cx_chain.
  now rewrite forallb_map_all by reflexivity.
Qed.

Lemma cx_stage_length n_qubits L :
  length (@cx_stage angle n_qubits L) = (L * pairs n_qubits)%nat.
Proof.
  unfold cx_stage. induction L as [| L IH]; cbn; [reflexivity |].
  rewrite length_app, IH. unfold cx_chain.
  now rewrite length_map, range_length.
Qed.

End EgsStages.

(** C4.  On every valid input the EGS circuit is: the superposition
    stage and its barrier; then, for each layer, the batch of the
    [n_qubits - 1] pair rotations ([Rz] only) and a barrier, the batch
    of the [n_qubits] mixing rotations ([Rx] only) and a barrier; then
    one block holding every [cx] of the circuit; then the measurement.
    Nothing before or after that block is a [cx]. *)
Theorem egs_layered_structure :
  forall (angle : Type) (n_qubits layers : Z) (params : list angle),
  0 <= n_qubits -> 0 <= layers ->
  Z.of_nat (length params) = n_params n_qubits layers ->
  let stages := egs_stages n_qubits (Z.to_nat layers) params in
  let final := cx_stage n_qubits (Z.to_nat layers) in
  let before := h_stage n_qubits ++ [Barrier] ++ flat_map render_stage stages in
  exists ce,
    build_genomic_ansatz_egs n_qubits layers params = Ok ce
    /\ data ce = before ++ final ++ measure_all_instrs angle n_qubits
    /\ length stages = Z.to_nat layers
    /\ forallb (stage_ok n_qubits) stages = true
    /\ forallb is_cx final = true
    /\ length final = (Z.to_nat layers * pairs n_qubits)%nat
    /\ entanglers before = []
    /\ rotations before = rotations (data ce)
    /\ entanglers (measure_all_instrs angle n_qubits) = [].
Proof.
  intros angle n_qubits layers params Hn Hl Hlen stages final before.
  pose proof (valid_consumed n_qubits layers params Hn Hl Hlen) as Hc.
  assert (HB : egs_schedule n_qubits layers params
               = before ++ final ++ measure_all_instrs angle n_qubits).
  { unfold egs_schedule, before, final, stages.
    rewrite egs_layers_render, <- !app_assoc. reflexivity. }
  eexists.
  split; [apply egs_ok; [assumption | lia] |].
  cbn [data].
  split; [exact HB |].
  split; [apply egs_stages_length |].
  split; [apply egs_stages_ok; unfold consumed in Hc; lia |].
  split; [apply cx_stage_all_cx |].
  split; [apply cx_stage_length |].
  assert (HEB : entanglers before = []).
  { unfold before, stages.
    rewrite !entanglers_app, entanglers_h_stage, <- egs_layers_render,
      entanglers_egs_layers. reflexivity. }
  split; [exact HEB |].
  split; [| apply entanglers_measure_all].
  rewrite HB, !rotations_app. unfold final.
  now rewrite rotations_cx_stage, rotations_measure_all, app_nil_r.
Qed.

Lemma egs_layered_structure_witness :
  let stages := egs_stages 3 (Z.to_nat 2) [1; 2; 3; 4; 5; 6; 7; 8; 9; 10] in
  let final := @cx_stage Z 3 (Z.to_nat 2) in
  let before := h_stage 3 ++ [Barrier] ++ flat_map render_stage stages in
  exists ce,
    build_genomic_ansatz_egs 3 2 [1; 2; 3; 4; 5; 6; 7; 8; 9; 10] = Ok ce
    /\ data ce = before ++ final ++ measure_all_instrs Z 3
    /\ length stages = Z.to_nat 2
    /\ forallb (stage_ok 3) stages = true
    /\ forallb is_cx final = true
    /\ length final = (Z.to_nat 2 * pairs 3)%nat
    /\ entanglers before = []
    /\ rotations before = rotations (data ce)
    /\ entanglers (measure_all_instrs Z 3) = [].
Proof.
  apply (egs_layered_structure Z 3 2 [1; 2; 3; 4; 5; 6; 7; 8; 9; 10]);
    [lia | lia | reflexivity].
Defined.

(** ** C7: the noise model *)

(** C7.  [create_thermal_noise] takes no input and reads no state; the
    model it returns holds no qubit-specific error and exactly two
    distinct all-qubit channels.  Every single-qubit gate name maps to
    the first, [cx] and [cz] map to the second, no other name has an
    error.  The first channel is the thermal relaxation over 60 ns
    followed by the depolarizing error 0.001 on one qubit; the second
    is the tensor product of two thermal relaxations over 300 ns
    followed by the depolarizing error 0.01 on two qubits. *)
Theorem thermal_noise_two_channels :
  local_quantum_errors create_thermal_noise = []
  /\ channels create_thermal_noise = [channel_1q; channel_2q]
  /\ (forall name,
        errors_lookup name (default_quantum_errors create_thermal_noise) =
        if existsb (String.eqb name) one_qubit_gates then Some channel_1q
        else if existsb (String.eqb name) two_qubit_gates then Some channel_2q
        else None)
  /\ application_order channel_1q =
     [thermal_relaxation_error (120 # 1000000) (80 # 1000000) (60 # 1000000000);
      depolarizing_error (1 # 1000) 1]
  /\ application_order channel_2q =
     [Tensor
        (thermal_relaxation_error (120 # 1000000) (80 # 1000000) (300 # 1000000000))
        (thermal_relaxation_error (120 # 1000000) (80 # 1000000) (300 # 1000000000));
      depolarizing_error (1 # 100) 2]
  /\ error_qubits channel_1q = 1
  /\ error_qubits channel_2q = 2.
Proof.
  split; [reflexivity |].
  split; [vm_compute; reflexivity |].
  split; [| repeat split; reflexivity].
  intros name.
  unfold create_thermal_noise, add_all_qubit_quantum_error,
    one_qubit_gates, two_qubit_gates.
  cbn [fold_left default_quantum_errors NoiseModel_new errors_register
       String.eqb Ascii.eqb Bool.eqb errors_lookup existsb].
  fold channel_1q. fold channel_2q.
  repeat match goal with
         | |- context [String.eqb name ?k] =>
             destruct (String.eqb name k); cbn [orb]; try reflexivity
         end.
Qed.

(** ** The benchmark driver *)

Section Driver.

Variables rng ext compiled : Type.
Variable mt19937_seed : Z -> rng.
Variable random_uniform : Q -> Q -> Z -> rng -> result (list Q) * rng.
Variable transpile :
  QuantumCircuit Q -> AerSimulator -> Z -> Stmt.M (world rng ext) compiled.
Variable run_counts :
  AerSimulator -> compiled -> Z -> Stmt.M (world rng ext) (list (string * Z)).
Variable depth : compiled -> Z.

Let generate := @generate_params rng ext mt19937_seed random_uniform.
Let benchmark :=
  run_egs_benchmark mt19937_seed random_uniform transpile run_counts depth.
Let evaluate := evaluate_circuits transpile run_counts depth.

(** The driver is the drawing of the vector followed by the evaluation
    of the two circuits built from it. *)
Lemma benchmark_unfold n_qubits n_layers w :
  benchmark n_qubits n_layers w =
  Stmt.bind (generate n_qubits n_layers)
    (fun params =>
       evaluate (build_genomic_ansatz_standard n_qubits n_layers params)
                (build_genomic_ansatz_egs n_qubits n_layers params)) w.
Proof. reflexivity. Qed.

(** Drawing the vector starts from the seeded generator, whatever the
    generator state was. *)
Lemma generate_from_seed n_qubits n_layers w :
  generate n_qubits n_layers w =
  np_random_uniform random_uniform (- np_pi)%Q np_pi
    (n_params n_qubits n_layers)
    {| np_random := mt19937_seed 42; qiskit := qiskit w |}.
Proof. reflexivity. Qed.

Lemma benchmark_from_seed n_qubits n_layers w :
  benchmark n_qubits n_layers w =
  benchmark n_qubits n_layers
    {| np_random := mt19937_seed 42; qiskit := qiskit w |}.
Proof.
  rewrite !benchmark_unfold. unfold Stmt.bind.
  now rewrite !generate_from_seed.
Qed.

End Driver.

(** ** C6: the parameter vector *)



(** ** C10: the global generator after a run *)

(** C10.  For all arguments, the first effect of a run is to replace
    the state of the global generator by the state seed 42 installs:
    the run (its result and the process state it leaves, generator
    included) is the run started from the seeded generator, so it does
    not depend on the generator state the caller had; nor does
    anything the caller computes after it. *)
Theorem benchmark_reseeds_global_generator :
  forall (rng ext compiled : Type)
         (mt19937_seed : Z -> rng)
         (random_uniform : Q -> Q -> Z -> rng -> result (list Q) * rng)
         (transpile : QuantumCircuit Q -> AerSimulator -> Z ->
                      Stmt.M (world rng ext) compiled)
         (run_counts : AerSimulator -> compiled -> Z ->
                       Stmt.M (world rng ext) (list (string * Z)))
         (depth : compiled -> Z)
         (n_qubits n_layers : Z) (g1 g2 : rng) (e : ext),
  let benchmark :=
    run_egs_benchmark mt19937_seed random_uniform transpile run_counts depth
      n_qubits n_layers in
  benchmark {| np_random := g1; qiskit := e |} =
  Stmt.bind
    (np_random_uniform random_uniform (- np_pi)%Q np_pi
       (n_params n_qubits n_layers))
    (fun params =>
       evaluate_circuits transpile run_counts depth
         (build_genomic_ansatz_standard n_qubits n_layers params)
         (build_genomic_ansatz_egs n_qubits n_layers params))
    {| np_random := mt19937_seed 42; qiskit := e |}
  /\ benchmark {| np_random := g1; qiskit := e |} =
     benchmark {| np_random := g2; qiskit := e |}
  /\ forall (A : Type) (next : BenchmarkReport -> Stmt.M (world rng ext) A),
       Stmt.bind benchmark next {| np_random := g1; qiskit := e |} =
       Stmt.bind benchmark next {| np_random := g2; qiskit := e |}.
Proof.
  intros rng ext compiled mt19937_seed random_uniform transpile run_counts
    depth n_qubits n_layers g1 g2 e benchmark.
  assert (E : benchmark {| np_random := g1; qiskit := e |} =
              benchmark {| np_random := g2; qiskit := e |}).
  { unfold benchmark.
    rewrite (benchmark_from_seed _ _ _ mt19937_seed random_uniform transpile
               run_counts depth n_qubits n_layers
               {| np_random := g1; qiskit := e |}).
    rewrite (benchmark_from_seed _ _ _ mt19937_seed random_uniform transpile
               run_counts depth n_qubits n_layers
               {| np_random := g2; qiskit := e |}).
    reflexivity. }
  split; [reflexivity |]. split; [exact E |].
  intros A next. unfold Stmt.bind. now rewrite E.
Qed.

(** The generator state does change: started from state 7, a run on
    the linear congruential double leaves another state behind. *)
Lemma benchmark_changes_generator_example :
  np_random
    (snd (run_egs_benchmark lcg_seed lcg_uniform identity_transpile
            single_outcome_run instruction_count 2 1
            {| np_random := 7; qiskit := tt |}))
  <> 7.
Proof. vm_compute. discriminate. Qed.

(** ** C5: failures of the compiler and of the simulator *)

(** C5, as stated, fails: with a compiler that rejects the circuit with
    Qiskit's [TranspilerError] the caller receives [TranspilerError],
    not [CompilationError]; with a simulator that fails with
    [AerError] the caller receives [AerError], not [ExecutionError]. *)
Lemma library_errors_are_not_renamed_example :
  fst (run_egs_benchmark lcg_seed lcg_uniform rejecting_transpile
         single_outcome_run instruction_count 2 1
         example_world) = Raise TranspilerError
  /\ fst (run_egs_benchmark lcg_seed lcg_uniform rejecting_transpile
            single_outcome_run instruction_count 2 1
            example_world) <> Raise CompilationError
  /\ fst (run_egs_benchmark lcg_seed lcg_uniform identity_transpile
            failing_run instruction_count 2 1
            example_world) = Raise AerError
  /\ fst (run_egs_benchmark lcg_seed lcg_uniform identity_transpile
            failing_run instruction_count 2 1
            example_world) <> Raise ExecutionError.
Proof.
  repeat split; try (vm_compute; reflexivity); vm_compute; discriminate.
Qed.

(** C5, amended.  Once the vector is drawn and both circuits are
    built, an exception raised by a compilation or by an execution
    reaches the caller as it is, the very exception the library
    raised, and the run ends in the process state that call left: the
    driver catches nothing and repeats no call.  The calls happen in
    the order: compile standard, compile EGS, run standard, run EGS.
    The phases differ by error type only as far as the exceptions of
    the libraries do. *)
Theorem library_failures_reach_caller_unchanged :
  forall (rng ext compiled : Type)
         (mt19937_seed : Z -> rng)
         (random_uniform : Q -> Q -> Z -> rng -> result (list Q) * rng)
         (transpile : QuantumCircuit Q -> AerSimulator -> Z ->
                      Stmt.M (world rng ext) compiled)
         (run_counts : AerSimulator -> compiled -> Z ->
                       Stmt.M (world rng ext) (list (string * Z)))
         (depth : compiled -> Z)
         (n_qubits n_layers : Z)
         (w w0 : world rng ext) (v : list Q) (cs ce : QuantumCircuit Q),
  generate_params mt19937_seed random_uniform n_qubits n_layers w = (Ok v, w0) ->
  build_genomic_ansatz_standard n_qubits n_layers v = Ok cs ->
  build_genomic_ansatz_egs n_qubits n_layers v = Ok ce ->
  let benchmark :=
    run_egs_benchmark mt19937_seed random_uniform transpile run_counts depth
      n_qubits n_layers in
  (forall e w1,
     transpile cs backend 3 w0 = (Raise e, w1) ->
     benchmark w = (Raise e, w1))
  /\ (forall c1 w1 e w2,
        transpile cs backend 3 w0 = (Ok c1, w1) ->
        transpile ce backend 3 w1 = (Raise e, w2) ->
        benchmark w = (Raise e, w2))
  /\ (forall c1 w1 c2 w2 e w3,
        transpile cs backend 3 w0 = (Ok c1, w1) ->
        transpile ce backend 3 w1 = (Ok c2, w2) ->
        run_counts backend c1 SHOTS w2 = (Raise e, w3) ->
        benchmark w = (Raise e, w3))
  /\ (forall c1 w1 c2 w2 k1 w3 e w4,
        transpile cs backend 3 w0 = (Ok c1, w1) ->
        transpile ce backend 3 w1 = (Ok c2, w2) ->
        run_counts backend c1 SHOTS w2 = (Ok k1, w3) ->
        run_counts backend c2 SHOTS w3 = (Raise e, w4) ->
        benchmark w = (Raise e, w4)).
Proof.
  intros rng ext compiled mt19937_seed random_uniform transpile run_counts
    depth n_qubits n_layers w w0 v cs ce Hgen Hstd Hegs benchmark.
  assert (Start : forall r, 
            evaluate_circuits transpile run_counts depth (Ok cs) (Ok ce) w0 = r ->
            benchmark w = r).
  { intros r <-. unfold benchmark. rewrite benchmark_unfold.
    unfold Stmt.bind at 1. now rewrite Hgen, Hstd, Hegs. }
  repeat split.
  - intros e w1 T1. apply Start.
    unfold evaluate_circuits, Stmt.bind, Stmt.lift. now rewrite T1.
  - intros c1 w1 e w2 T1 T2. apply Start.
    unfold evaluate_circuits, Stmt.bind, Stmt.lift. now rewrite T1, T2.
  - intros c1 w1 c2 w2 e w3 T1 T2 R1. apply Start.
    unfold evaluate_circuits, Stmt.bind, Stmt.lift. now rewrite T1, T2, R1.
  - intros c1 w1 c2 w2 k1 w3 e w4 T1 T2 R1 R2. apply Start.
    unfold evaluate_circuits, Stmt.bind, Stmt.lift.
    now rewrite T1, T2, R1, R2.
Qed.

Lemma library_failures_reach_caller_unchanged_witness :
  run_egs_benchmark lcg_seed lcg_uniform rejecting_transpile
    single_outcome_run instruction_count 2 1 example_world
  = (Raise TranspilerError, example_world_drawn).
Proof.
  assert (Hgen : generate_params lcg_seed lcg_uniform 2 1 example_world
                 = (Ok example_params, example_world_drawn))
    by (vm_compute; reflexivity).
  destruct (build_genomic_ansatz_standard 2 1 example_params)
    as [cs | e1] eqn:Hstd; [| vm_compute in Hstd; discriminate Hstd].
  destruct (build_genomic_ansatz_egs 2 1 example_params)
    as [ce | e2] eqn:Hegs; [| vm_compute in Hegs; discriminate Hegs].
  exact (proj1 (library_failures_reach_caller_unchanged
                  Z unit (QuantumCircuit Q)
                  lcg_seed lcg_uniform rejecting_transpile
                  single_outcome_run instruction_count 2 1
                  example_world example_world_drawn example_params cs ce
                  Hgen Hstd Hegs)
           TranspilerError example_world_drawn eq_refl).
Defined.

(** ** Well-formedness of the built circuits *)

Lemma range_bounds (k i : Z) : In i (range k) -> 0 <= i < k.
Proof.
  unfold range. rewrite in_map_iff. intros (j & <- & Hj).
  apply in_seq in Hj. lia.
Qed.

Lemma qubit_ok_true (n q : Z) : 0 <= q < n -> qubit_ok n q = true.
Proof.
  intros Hq. unfold qubit_ok.
  destruct (Z.leb_spec 0 q); [| lia].
  destruct (Z.ltb_spec q n); [reflexivity | lia].
Qed.

Section WellFormed.

Variable angle : Type.
Variable n_qubits : Z.

Implicit Types (ps : list angle) (g : instr angle).

Lemma pair_index_bounds ps (p : Z * angle) :
  In p (combine (range (n_qubits - 1)) ps) -> 0 <= fst p < n_qubits - 1.
Proof.
  destruct p as [i theta]. intros Hp.
  apply in_combine_l in Hp. now apply range_bounds.
Qed.

Lemma single_index_bounds ps (p : Z * angle) :
  In p (combine (range n_qubits) ps) -> 0 <= fst p < n_qubits.
Proof.
  destruct p as [i theta]. intros Hp.
  apply in_combine_l in Hp. now apply range_bounds.
Qed.

Lemma cx_ok (i : Z) :
  0 <= i < n_qubits - 1 -> instr_ok n_qubits (@Cx angle i (i + 1)) = true.
Proof.
  intros Hi. cbn. rewrite !qubit_ok_true by lia.
  destruct (Z.eqb_spec i (i + 1)); [lia | reflexivity].
Qed.

Lemma h_stage_ok g : In g (h_stage n_qubits) -> instr_ok n_qubits g = true.
Proof.
  unfold h_stage. rewrite in_map_iff. intros (i & <- & Hi).
  apply range_bounds in Hi. cbn. now apply qubit_ok_true.
Qed.

Lemma measure_all_ok g :
  In g (measure_all_instrs angle n_qubits) -> instr_ok n_qubits g = true.
Proof.
  unfold measure_all_instrs. intros [<- | Hg]; [reflexivity |].
  apply in_map_iff in Hg as (i & <- & Hi).
  apply range_bounds in Hi. cbn. now rewrite qubit_ok_true.
Qed.

Lemma rz_stage_ok ps g : In g (rz_stage n_qubits ps) -> instr_ok n_qubits g = true.
Proof.
  unfold rz_stage. rewrite in_map_iff. intros (p & <- & Hp).
  apply pair_index_bounds in Hp. cbn. apply qubit_ok_true. lia.
Qed.

Lemma rx_stage_ok ps g : In g (rx_stage n_qubits ps) -> instr_ok n_qubits g = true.
Proof.
  unfold rx_stage. rewrite in_map_iff. intros (p & <- & Hp).
  apply single_index_bounds in Hp. cbn. now apply qubit_ok_true.
Qed.

Lemma standard_layer_schedule_ok ps g :
  In g (standard_layer_schedule n_qubits ps) -> instr_ok n_qubits g = true.
Proof.
  unfold standard_layer_schedule. rewrite in_app_iff, in_flat_map.
  intros [(p & Hp & Hg) | Hg]; [| now apply rx_stage_ok in Hg].
  apply pair_index_bounds in Hp.
  destruct Hg as [<- | [<- | [<- | []]]]; try now apply cx_ok.
  cbn. apply qubit_ok_true. lia.
Qed.

Lemma egs_layer_schedule_ok ps g :
  In g (egs_layer_schedule n_qubits ps) -> instr_ok n_qubits g = true.
Proof.
  unfold egs_layer_schedule. rewrite !in_app_iff.
  intros [Hg | [[<- | []] | [Hg | [<- | []]]]]; try reflexivity.
  - now apply rz_stage_ok in Hg.
  - now apply rx_stage_ok in Hg.
Qed.

Lemma layers_schedule_ok layer (w : nat) :
  (forall ps g, In g (layer ps) -> instr_ok n_qubits g = true) ->
  forall L ps g,
  In g (layers_schedule layer w L ps) -> instr_ok n_qubits g = true.
Proof.
  intros Hl. induction L as [| L IH]; intros ps g; cbn; [intros [] |].
  rewrite in_app_iff. intros [Hg | Hg]; [eapply Hl | eapply IH]; eassumption.
Qed.

Lemma cx_stage_ok L g : In g (cx_stage n_qubits L) -> instr_ok n_qubits g = true.
Proof.
  unfold cx_stage. induction L as [| L IH]; cbn; [intros [] |].
  rewrite in_app_iff. intros [Hg | Hg]; [| now apply IH].
  unfold cx_chain in Hg. apply in_map_iff in Hg as (i & <- & Hi).
  apply range_bounds in Hi. now apply cx_ok.
Qed.

Lemma standard_schedule_ok layers ps :
  forallb (instr_ok n_qubits) (standard_schedule n_qubits layers ps) = true.
Proof.
  apply forallb_forall. intros g. unfold standard_schedule.
  rewrite !in_app_iff. intros [Hg | [Hg | Hg]].
  - now apply h_stage_ok.
  - eapply layers_schedule_ok; [apply standard_layer_schedule_ok | exact Hg].
  - now apply measure_all_ok.
Qed.

Lemma egs_schedule_ok layers ps :
  forallb (instr_ok n_qubits) (egs_schedule n_qubits layers ps) = true.
Proof.
  apply forallb_forall. intros g. unfold egs_schedule.
  rewrite !in_app_iff. intros [Hg | [[<- | []] | [Hg | [Hg | Hg]]]].
  - now apply h_stage_ok.
  - reflexivity.
  - eapply layers_schedule_ok; [apply egs_layer_schedule_ok | exact Hg].
  - now apply cx_stage_ok in Hg.
  - now apply measure_all_ok.
Qed.

End WellFormed.

(** X5.  Every instruction of a circuit either builder returns acts on
    qubits the circuit has: each [h], [rz], [rx] and measurement on a
    qubit in [0, n_qubits), each measurement into a bit of the same
    index range, each [cx] on two different qubits of that range. *)
Lemma built_circuits_well_formed {angle} n_qubits layers (params : list angle) c :
  build_genomic_ansatz_standard n_qubits layers params = Ok c
  \/ build_genomic_ansatz_egs n_qubits layers params = Ok c ->
  forallb (instr_ok (num_qubits c)) (data c) = true.
Proof.
  rewrite standard_spec, egs_spec. unfold builder_result.
  destruct (n_qubits <? 0); [intros [E | E]; discriminate E |].
  destruct (length params <? consumed n_qubits layers)%nat;
    [intros [E | E]; discriminate E |].
  intros [E | E]; injection E as <-; cbn [num_qubits data].
  - apply standard_schedule_ok.
  - apply egs_schedule_ok.
Qed.

(** * Further properties of the builders *)

(** ** Both builders fail on the same inputs *)

(** X1.  On every input the two builders either both return a circuit
    or both raise, and then the same exception: a parameter vector is
    long enough for one exactly when it is long enough for the other. *)
Theorem builders_fail_alike :
  forall (angle : Type) (n_qubits layers : Z) (params : list angle) (e : exn),
  build_genomic_ansatz_standard n_qubits layers params = Raise e
  <-> build_genomic_ansatz_egs n_qubits layers params = Raise e.
Proof.
  intros angle n_qubits layers params e.
  rewrite standard_spec, egs_spec. unfold builder_result.
  destruct (n_qubits <? 0); [reflexivity |].
  destruct (length params <? consumed n_qubits layers)%nat; [reflexivity |].
  split; intros E; discriminate E.
Qed.

(** ** A layer count that is not positive *)

Lemma schedules_without_layers {angle} n_qubits layers (ps qs : list angle) :
  layers <= 0 ->
  standard_schedule n_qubits layers ps = standard_schedule n_qubits 0 qs
  /\ egs_schedule n_qubits layers ps = egs_schedule n_qubits 0 qs
  /\ consumed n_qubits layers = 0%nat.
Proof.
  intros Hl. unfold standard_schedule, egs_schedule, consumed.
  replace (Z.to_nat layers) with 0%nat by lia.
  repeat split.
Qed.

(** X2.  A zero or negative layer count runs no layer: whatever the
    parameter vector, each builder returns the circuit it returns for
    zero layers and the empty vector, and reads no parameter. *)
Theorem nonpositive_layers_build_zero_layers :
  forall (angle : Type) (n_qubits layers : Z) (params : list angle),
  layers <= 0 ->
  build_genomic_ansatz_standard n_qubits layers params =
  build_genomic_ansatz_standard n_qubits 0 []
  /\ build_genomic_ansatz_egs n_qubits layers params =
     build_genomic_ansatz_egs n_qubits 0 [].
Proof.
  intros angle n_qubits layers params Hl.
  destruct (schedules_without_layers n_qubits layers params [] Hl)
    as (Hs & He & Hc).
  rewrite !standard_spec, !egs_spec. unfold builder_result.
  rewrite Hs, He, Hc. cbn [consumed Z.to_nat Nat.mul].
  destruct (n_qubits <? 0); [split; reflexivity |].
  destruct (length params) ; split; reflexivity.
Qed.

Lemma nonpositive_layers_build_zero_layers_witness :
  build_genomic_ansatz_standard 2 (-3) [10; 20] =
  build_genomic_ansatz_standard 2 0 []
  /\ build_genomic_ansatz_egs 2 (-3) [10; 20] =
     build_genomic_ansatz_egs 2 0 [].
Proof.
  apply (nonpositive_layers_build_zero_layers Z 2 (-3) [10; 20]). lia.
Defined.

(** ** Generic facts used below *)

Lemma filter_layers_nil {angle} (p : instr angle -> bool) layer (w L : nat) ps :
  (forall ps0, filter p (layer ps0) = []) ->
  filter p (layers_schedule layer w L ps) = [].
Proof.
  intros Hl. rewrite filter_layers.
  rewrite (@layers_schedule_eq angle _ (fun _ => [])) by exact Hl.
  rewrite layers_schedule_const. apply concat_repeat_nil.
Qed.

Lemma layers_schedule_length {angle} (layer : list angle -> list (instr angle))
  (w k : nat) :
  (forall ps, (w <= length ps)%nat -> length (layer ps) = k) ->
  forall L ps, (L * w <= length ps)%nat ->
  length (layers_schedule layer w L ps) = (L * k)%nat.
Proof.
  intros Hl. induction L as [| L IH]; intros ps Hlen; cbn; [reflexivity |].
  cbn in Hlen. rewrite length_app, Hl by lia.
  rewrite IH by (rewrite length_skipn; lia). reflexivity.
Qed.

Lemma length_concat_repeat {B} (c : list B) (k : nat) :
  length (concat (repeat c k)) = (k * length c)%nat.
Proof.
  induction k as [| k IH]; cbn; [reflexivity |].
  now rewrite length_app, IH.
Qed.

Lemma length_flat_map_const {A B} (g : A -> list B) (k : nat) (l : list A) :
  (forall a, length (g a) = k) ->
  length (flat_map g l) = (length l * k)%nat.
Proof.
  intros Hg. induction l as [| a l IH]; cbn; [reflexivity |].
  now rewrite length_app, Hg, IH.
Qed.

(** ** One qubit *)

Lemma standard_layers_one_qubit {angle} : forall L (ps : list angle),
  layers_schedule (standard_layer_schedule 1) (per_layer 1) L ps =
  map (fun theta => Rx theta 0) (firstn L ps).
Proof.
  induction L as [| L IH]; intros ps; [reflexivity |].
  cbn [layers_schedule]. rewrite IH.
  change (per_layer 1) with 1%nat.
  destruct ps as [| theta ps]; [| reflexivity].
  cbn [skipn]. now rewrite firstn_nil.
Qed.

Lemma egs_layers_one_qubit {angle} : forall L (ps : list angle),
  gates (layers_schedule (egs_layer_schedule 1) (per_layer 1) L ps) =
  map (fun theta => Rx theta 0) (firstn L ps).
Proof.
  unfold gates.
  induction L as [| L IH]; intros ps; [reflexivity |].
  cbn [layers_schedule]. rewrite filter_app, IH.
  change (per_layer 1) with 1%nat.
  destruct ps as [| theta ps]; [| reflexivity].
  cbn [skipn]. now rewrite firstn_nil.
Qed.

(** X3.  With a single qubit neither builder emits an entangling gate
    or an [rz]: given at least one parameter per layer, both circuits
    have the same gates in the same order, [h] on qubit 0, one [rx] on
    qubit 0 per layer carrying the parameters in order, and the
    measurement of qubit 0. *)
Theorem single_qubit_circuits :
  forall (angle : Type) (layers : Z) (params : list angle),
  (Z.to_nat layers <= length params)%nat ->
  exists cs ce,
    build_genomic_ansatz_standard 1 layers params = Ok cs
    /\ build_genomic_ansatz_egs 1 layers params = Ok ce
    /\ gates (data cs) =
       H 0 :: map (fun theta => Rx theta 0) (firstn (Z.to_nat layers) params)
           ++ [Measure 0 0]
    /\ gates (data ce) = gates (data cs).
Proof.
  intros angle layers params Hlen.
  assert (Hc : (consumed 1 layers <= length params)%nat).
  { unfold consumed. change (per_layer 1) with 1%nat. lia. }
  assert (Hh : @h_stage angle 1 = [H 0]) by reflexivity.
  assert (Hm : measure_all_instrs angle 1 = [Barrier; Measure 0 0])
    by reflexivity.
  assert (Gs : gates (standard_schedule 1 layers params) =
               H 0 :: map (fun theta => Rx theta 0)
                          (firstn (Z.to_nat layers) params)
                   ++ [Measure 0 0]).
  { unfold standard_schedule. rewrite standard_layers_one_qubit, Hh, Hm.
    unfold gates. rewrite !filter_app.
    rewrite (filter_map_all _ (fun theta : angle => Rx theta 0)) by reflexivity.
    reflexivity. }
  do 2 eexists.
  split; [apply standard_ok; [lia | exact Hc] |].
  split; [apply egs_ok; [lia | exact Hc] |].
  cbn [data]. split; [exact Gs |].
  rewrite Gs. unfold egs_schedule. rewrite Hh, Hm.
  unfold gates. rewrite !filter_app.
  fold (gates (layers_schedule (egs_layer_schedule 1) (per_layer 1)
                 (Z.to_nat layers) params)).
  rewrite egs_layers_one_qubit.
  unfold cx_stage. change (@cx_chain angle 1) with (@nil (instr angle)).
  rewrite concat_repeat_nil. reflexivity.
Qed.

Lemma single_qubit_circuits_witness :
  exists cs ce,
    build_genomic_ansatz_standard 1 2 [10; 20; 30] = Ok cs
    /\ build_genomic_ansatz_egs 1 2 [10; 20; 30] = Ok ce
    /\ gates (data cs) =
       H 0 :: map (fun theta => Rx theta 0) (firstn (Z.to_nat 2) [10; 20; 30])
           ++ [Measure 0 0]
    /\ gates (data ce) = gates (data cs).
Proof.
  apply (single_qubit_circuits Z 2 [10; 20; 30]). cbn. lia.
Defined.

(** ** How many instructions of each kind *)

Section Counts.

Variable angle : Type.

Implicit Types (ps : list angle) (n_qubits layers : Z).

Lemma barriers_app (l1 l2 : list (instr angle)) :
  barriers (l1 ++ l2) = barriers l1 ++ barriers l2.
Proof. apply filter_app. Qed.

Lemma barriers_standard_schedule n_qubits layers ps :
  barriers (standard_schedule n_qubits layers ps) = [Barrier].
Proof.
  unfold standard_schedule, barriers. rewrite !filter_app.
  unfold h_stage at 1. rewrite filter_map_none by reflexivity.
  rewrite filter_layers_nil.
  - unfold measure_all_instrs. cbn [filter is_barrier app].
    now rewrite filter_map_none by reflexivity.
  - intros ps0. unfold standard_layer_schedule, rx_stage.
    rewrite filter_app, filter_flat_map, filter_map_none by reflexivity.
    cbn. now rewrite flat_map_nil.
Qed.

Lemma barriers_egs_layer n_qubits ps :
  barriers (egs_layer_schedule n_qubits ps) = [Barrier; Barrier].
Proof.
  unfold egs_layer_schedule, rz_stage, rx_stage, barriers.
  rewrite !filter_app, !filter_map_none by reflexivity. reflexivity.
Qed.

Lemma barriers_egs_schedule n_qubits layers ps :
  length (barriers (egs_schedule n_qubits layers ps)) =
  (2 + 2 * Z.to_nat layers)%nat.
Proof.
  unfold egs_schedule. rewrite !barriers_app, !length_app.
  unfold barriers at 1, h_stage. rewrite filter_map_none by reflexivity.
  unfold barriers at 2. rewrite filter_layers.
  rewrite (@layers_schedule_eq angle _ (fun _ => [Barrier; Barrier]))
    by (intros ps0; apply barriers_egs_layer).
  rewrite layers_schedule_const, length_concat_repeat.
  unfold barriers at 2, cx_stage. rewrite filter_concat_repeat.
  unfold cx_chain. rewrite filter_map_none by reflexivity.
  rewrite concat_repeat_nil.
  unfold barriers, measure_all_instrs. cbn [filter is_barrier].
  rewrite filter_map_none by reflexivity. cbn. lia.
Qed.

Lemma standard_layer_length n_qubits ps :
  (per_layer n_qubits <= length ps)%nat ->
  length (standard_layer_schedule n_qubits ps) =
  (3 * pairs n_qubits + singles n_qubits)%nat.
Proof.
  intros Hlen. unfold standard_layer_schedule.
  rewrite length_app, rx_stage_length by exact Hlen.
  rewrite (length_flat_map_const cx_rz_cx 3) by reflexivity.
  rewrite length_combine, range_length.
  unfold per_layer, pairs in *. lia.
Qed.

Lemma egs_layer_length n_qubits ps :
  (per_layer n_qubits <= length ps)%nat ->
  length (egs_layer_schedule n_qubits ps) =
  (pairs n_qubits + singles n_qubits + 2)%nat.
Proof.
  intros Hlen. unfold egs_layer_schedule.
  rewrite !length_app, rz_stage_length, rx_stage_length by exact Hlen.
  cbn. lia.
Qed.

Lemma stage_lengths n_qubits :
  length (@h_stage angle n_qubits) = singles n_qubits
  /\ length (measure_all_instrs angle n_qubits) = S (singles n_qubits).
Proof.
  unfold h_stage, measure_all_instrs, singles. cbn [length].
  now rewrite !length_map, range_length.
Qed.

Lemma rotations_length_angles (l : list (instr angle)) :
  length (rotations l) = length (angles l).
Proof.
  unfold rotations. induction l as [| g l IH]; cbn; [reflexivity |].
  destruct g; cbn; now rewrite IH.
Qed.

Lemma cx_twice_length n_qubits :
  length (@cx_twice angle n_qubits) = (2 * pairs n_qubits)%nat.
Proof.
  unfold cx_twice.
  rewrite (length_flat_map_const _ 2) by reflexivity.
  rewrite range_length. unfold pairs. lia.
Qed.

End Counts.

(** X4.  When the parameter vector is long enough, the circuits hold:
    one rotation per parameter read, in both; two [cx] per adjacent
    pair and layer in the standard circuit, one in the EGS circuit; one
    barrier in the standard circuit (the one of [measure_all]), two
    plus two per layer in the EGS circuit; and in all
    [2n + 1 + L(4n - 3)] resp. [2n + 2 + L(3n)] instructions for [n >= 1]
    qubits and [L] layers. *)
Theorem instruction_counts :
  forall (angle : Type) (n_qubits layers : Z) (params : list angle),
  0 <= n_qubits ->
  (consumed n_qubits layers <= length params)%nat ->
  let n := singles n_qubits in
  let p := pairs n_qubits in
  let L := Z.to_nat layers in
  exists cs ce,
    build_genomic_ansatz_standard n_qubits layers params = Ok cs
    /\ build_genomic_ansatz_egs n_qubits layers params = Ok ce
    /\ length (rotations (data cs)) = (L * (p + n))%nat
    /\ length (rotations (data ce)) = (L * (p + n))%nat
    /\ length (entanglers (data cs)) = (2 * (L * p))%nat
    /\ length (entanglers (data ce)) = (L * p)%nat
    /\ length (barriers (data cs)) = 1%nat
    /\ length (barriers (data ce)) = (2 + 2 * L)%nat
    /\ length (data cs) = (2 * n + 1 + L * (3 * p + n))%nat
    /\ length (data ce) = (2 * n + 2 + L * (2 * p + n + 2))%nat.
Proof.
  intros angle n_qubits layers params Hn Hlen n p L.
  destruct (stage_lengths angle n_qubits) as [Hh Hm].
  do 2 eexists.
  split; [apply standard_ok; assumption |].
  split; [apply egs_ok; assumption |].
  cbn [data].
  split.
  { rewrite rotations_length_angles, angles_standard_schedule, length_firstn.
    unfold consumed, per_layer in *. subst n p L. lia. }
  split.
  { rewrite rotations_length_angles, angles_egs_schedule, length_firstn.
    unfold consumed, per_layer in *. subst n p L. lia. }
  split.
  { rewrite entanglers_standard_schedule by exact Hlen.
    rewrite length_concat_repeat, cx_twice_length. subst p L. lia. }
  split.
  { rewrite entanglers_egs_schedule. apply cx_stage_length. }
  split.
  { now rewrite barriers_standard_schedule. }
  split.
  { apply barriers_egs_schedule. }
  split.
  { unfold standard_schedule. rewrite !length_app, Hh, Hm.
    rewrite (layers_schedule_length _ _
               (3 * pairs n_qubits + singles n_qubits)).
    - subst n p L. lia.
    - intros ps0 H0. now apply standard_layer_length.
    - exact Hlen. }
  { unfold egs_schedule. rewrite !length_app, Hh, Hm.
    rewrite (layers_schedule_length _ _
               (pairs n_qubits + singles n_qubits + 2)).
    - rewrite cx_stage_length. cbn [length]. subst n p L. lia.
    - intros ps0 H0. now apply egs_layer_length.
    - exact Hlen. }
Qed.

Lemma instruction_counts_witness :
  exists cs ce,
    build_genomic_ansatz_standard 3 2 [1; 2; 3; 4; 5; 6; 7; 8; 9; 10] = Ok cs
    /\ build_genomic_ansatz_egs 3 2 [1; 2; 3; 4; 5; 6; 7; 8; 9; 10] = Ok ce
    /\ length (rotations (data cs)) = 10%nat
    /\ length (rotations (data ce)) = 10%nat
    /\ length (entanglers (data cs)) = 8%nat
    /\ length (entanglers (data ce)) = 4%nat
    /\ length (barriers (data cs)) = 1%nat
    /\ length (barriers (data ce)) = 6%nat
    /\ length (data cs) = 25%nat
    /\ length (data ce) = 26%nat.
Proof.
  exact (instruction_counts Z 3 2 [1; 2; 3; 4; 5; 6; 7; 8; 9; 10]
           ltac:(lia) ltac:(vm_compute; lia)).
Defined.

Lemma built_circuits_well_formed_witness :
  forallb (instr_ok 2)
    [H 0; H 1; Barrier; Rz 10 1; Barrier; Rx 20 0; Rx 30 1; Barrier;
     Cx 0 1; Barrier; Measure 0 0; Measure 1 1] = true.
Proof.
  exact (built_circuits_well_formed 2 1 [10; 20; 30]
           {| num_qubits := 2; num_clbits := 4;
              data := [H 0; H 1; Barrier; Rz 10 1; Barrier; Rx 20 0; Rx 30 1;
                       Barrier; Cx 0 1; Barrier; Measure 0 0; Measure 1 1] |}
           (or_intror eq_refl)).
Defined.

(** ** Where the measurements are *)

Section Measurements.

Variable angle : Type.

Implicit Types (ps : list angle) (n_qubits layers : Z).

Lemma measurements_layers_standard n_qubits L ps :
  measurements (layers_schedule (standard_layer_schedule n_qubits)
                  (per_layer n_qubits) L ps) = [].
Proof.
  apply filter_layers_nil. intros ps0.
  unfold standard_layer_schedule, rx_stage.
  rewrite filter_app, filter_flat_map, filter_map_none by reflexivity.
  cbn. now rewrite flat_map_nil.
Qed.

Lemma measurements_layers_egs n_qubits L ps :
  measurements (layers_schedule (egs_layer_schedule n_qubits)
                  (per_layer n_qubits) L ps) = [].
Proof.
  apply filter_layers_nil. intros ps0.
  unfold egs_layer_schedule, rz_stage, rx_stage.
  now rewrite !filter_app, !filter_map_none by reflexivity.
Qed.

Lemma measurements_h_stage n_qubits : measurements (@h_stage angle n_qubits) = [].
Proof. apply filter_map_none. reflexivity. Qed.

Lemma measurements_cx_stage n_qubits L :
  measurements (@cx_stage angle n_qubits L) = [].
Proof.
  unfold measurements, cx_stage. rewrite filter_concat_repeat.
  unfold cx_chain. rewrite filter_map_none by reflexivity.
  apply concat_repeat_nil.
Qed.

End Measurements.

(** X6.  A circuit returned by either builder has [n_qubits] qubits
    and [2 * n_qubits] classical bits (the [n_qubits] bits the
    constructor allocates stay unused, [measure_all] brings its own),
    and it ends with a barrier followed by the measurement of every
    qubit [q], in order, into bit [q] of [meas]; nothing before that
    tail is a measurement. *)
Theorem measurements_come_last :
  forall (angle : Type) (n_qubits layers : Z) (params : list angle)
         (c : QuantumCircuit angle),
  build_genomic_ansatz_standard n_qubits layers params = Ok c
  \/ build_genomic_ansatz_egs n_qubits layers params = Ok c ->
  num_qubits c = n_qubits
  /\ num_clbits c = 2 * n_qubits
  /\ exists body,
       data c = body ++ Barrier :: map (fun q => Measure q q) (range n_qubits)
       /\ measurements body = [].
Proof.
  intros angle n_qubits layers params c.
  rewrite standard_spec, egs_spec. unfold builder_result.
  destruct (n_qubits <? 0); [intros [E | E]; discriminate E |].
  destruct (length params <? consumed n_qubits layers)%nat;
    [intros [E | E]; discriminate E |].
  intros [E | E]; injection E as <-; cbn [num_qubits num_clbits data];
    (split; [reflexivity |]); (split; [lia |]).
  - exists (h_stage n_qubits
            ++ layers_schedule (standard_layer_schedule n_qubits)
                 (per_layer n_qubits) (Z.to_nat layers) params).
    split.
    + unfold standard_schedule, measure_all_instrs.
      now rewrite <- app_assoc.
    + unfold measurements. rewrite filter_app.
      fold (measurements (@h_stage angle n_qubits)).
      rewrite measurements_h_stage.
      apply measurements_layers_standard.
  - exists (h_stage n_qubits ++ [Barrier]
            ++ layers_schedule (egs_layer_schedule n_qubits)
                 (per_layer n_qubits) (Z.to_nat layers) params
            ++ cx_stage n_qubits (Z.to_nat layers)).
    split.
    + unfold egs_schedule, measure_all_instrs.
      now rewrite <- !app_assoc.
    + unfold measurements. rewrite !filter_app.
      fold (measurements (@h_stage angle n_qubits)).
      fold (measurements (@cx_stage angle n_qubits (Z.to_nat layers))).
      rewrite measurements_h_stage, measurements_cx_stage.
      cbn [filter is_measure app].
      rewrite app_nil_r. apply measurements_layers_egs.
Qed.

Lemma measurements_come_last_witness :
  exists c,
    build_genomic_ansatz_egs 2 1 [10; 20; 30] = Ok c
    /\ num_qubits c = 2
    /\ num_clbits c = 2 * 2
    /\ exists body,
         data c = body ++ Barrier :: map (fun q => Measure q q) (range 2)
         /\ measurements body = [].
Proof.
  eexists. split; [vm_compute; reflexivity |].
  apply (measurements_come_last Z 2 1 [10; 20; 30]).
  right. vm_compute. reflexivity.
Defined.

(** ** The interleaving of the standard circuit *)

Section Interleaving.

Variable angle : Type.

Implicit Types (l : list (instr angle)).

Lemma rz_between_cx_app l1 l2 :
  rz_between_cx l1 -> rz_between_cx l2 -> rz_between_cx (l1 ++ l2).
Proof.
  intros H1 H2 pre theta q post E.
  apply app_eq_app in E as (m & [[E1 E2] | [E1 E2]]).
  - destruct m as [| g m].
    + rewrite app_nil_r in E1. cbn in E2. symmetry in E2.
      destruct (H2 [] theta q post E2) as (pre' & post' & Hp & Hq).
      destruct pre'; discriminate Hp.
    + cbn in E2. injection E2 as <- ->.
      destruct (H1 pre theta q m E1) as (pre' & post' & -> & ->).
      exists pre', (post' ++ l2). split; reflexivity.
  - destruct (H2 m theta q post E2) as (pre' & post' & -> & ->).
    exists (l1 ++ pre'), post'. subst pre.
    split; [now rewrite app_assoc | reflexivity].
Qed.

Lemma rz_between_cx_no_rz l :
  filter is_rz l = [] -> rz_between_cx l.
Proof.
  intros Hf pre theta q post ->.
  rewrite filter_app in Hf. cbn in Hf.
  apply app_eq_nil in Hf as [_ Hf]. discriminate Hf.
Qed.

Lemma rz_between_cx_block (p : Z * angle) : rz_between_cx (cx_rz_cx p).
Proof.
  destruct p as [i theta0]. intros pre theta q post E.
  unfold cx_rz_cx in E. cbn [fst snd] in E.
  destruct pre as [| g1 [| g2 [| g3 [| g4 pre]]]]; cbn in E;
    try discriminate E.
  injection E as <- <- <- <-.
  exists [], []. replace (i + 1 - 1) with i by lia. split; reflexivity.
Qed.

Lemma rz_between_cx_blocks (ps : list (Z * angle)) :
  rz_between_cx (flat_map cx_rz_cx ps).
Proof.
  induction ps as [| p ps IH]; cbn [flat_map].
  - apply rz_between_cx_no_rz. reflexivity.
  - apply rz_between_cx_app; [apply rz_between_cx_block | exact IH].
Qed.

Lemma rz_between_cx_layers (layer : list angle -> list (instr angle)) (w : nat) :
  (forall ps, rz_between_cx (layer ps)) ->
  forall L ps, rz_between_cx (layers_schedule layer w L ps).
Proof.
  intros Hl. induction L as [| L IH]; intros ps; cbn [layers_schedule].
  - apply rz_between_cx_no_rz. reflexivity.
  - apply rz_between_cx_app; [apply Hl | apply IH].
Qed.

Lemma rz_between_cx_standard_schedule n_qubits layers (ps : list angle) :
  rz_between_cx (standard_schedule n_qubits layers ps).
Proof.
  unfold standard_schedule.
  apply rz_between_cx_app; [| apply rz_between_cx_app].
  - apply rz_between_cx_no_rz. apply filter_map_none. reflexivity.
  - apply rz_between_cx_layers. intros ps0. unfold standard_layer_schedule.
    apply rz_between_cx_app; [apply rz_between_cx_blocks |].
    apply rz_between_cx_no_rz. apply filter_map_none. reflexivity.
  - apply rz_between_cx_no_rz. unfold measure_all_instrs. cbn.
    apply filter_map_none. reflexivity.
Qed.

End Interleaving.

(** X7.  In every circuit the standard builder returns, each [rz] on a
    qubit [q] has a [cx] from [q - 1] to [q] immediately before it and
    another immediately after it. *)
Theorem standard_rz_is_wrapped_in_cx :
  forall (angle : Type) (n_qubits layers : Z) (params : list angle)
         (c : QuantumCircuit angle),
  build_genomic_ansatz_standard n_qubits layers params = Ok c ->
  forall pre theta q post,
    data c = pre ++ Rz theta q :: post ->
    exists pre' post',
      pre = pre' ++ [Cx (q - 1) q] /\ post = Cx (q - 1) q :: post'.
Proof.
  intros angle n_qubits layers params c.
  rewrite standard_spec. unfold builder_result.
  destruct (n_qubits <? 0); [intros E; discriminate E |].
  destruct (length params <? consumed n_qubits layers)%nat;
    [intros E; discriminate E |].
  intros E. injection E as <-. cbn [data].
  apply rz_between_cx_standard_schedule.
Qed.

Lemma standard_rz_is_wrapped_in_cx_witness :
  exists pre' post',
    [H 0; H 1; Cx 0 1] = pre' ++ [@Cx Z (1 - 1) 1]
    /\ [Cx 0 1; Rx 20 0; Rx 30 1; Barrier; Measure 0 0; Measure 1 1]
       = @Cx Z (1 - 1) 1 :: post'.
Proof.
  exact (standard_rz_is_wrapped_in_cx Z 2 1 [10; 20; 30]
           {| num_qubits := 2; num_clbits := 4;
              data := [H 0; H 1; Cx 0 1; Rz 10 1; Cx 0 1; Rx 20 0; Rx 30 1;
                       Barrier; Measure 0 0; Measure 1 1] |}
           eq_refl
           [H 0; H 1; Cx 0 1] 10 1
           [Cx 0 1; Rx 20 0; Rx 30 1; Barrier; Measure 0 0; Measure 1 1]
           eq_refl).
Defined.

(** ** The noise model and the gates the builders emit *)

(** X13.  Every kind of gate the builders emit has an all-qubit error
    in the noise model of [backend], acting on as many qubits as the
    gate: the single-qubit channel for [h], [rz] and [rx], the
    two-qubit channel for [cx]; barriers and measurements have no
    error (the model has no readout error). *)
Theorem emitted_gates_have_matching_noise :
  forall (angle : Type) (g : instr angle),
  let registered :=
    errors_lookup (instr_name g)
      (default_quantum_errors (noise_model backend)) in
  (is_gate g = true ->
     exists channel,
       registered = Some channel
       /\ In channel (channels (noise_model backend))
       /\ error_qubits channel = gate_qubits g)
  /\ (is_gate g = false -> registered = None).
Proof.
  intros angle g registered. subst registered.
  destruct g; cbn [is_gate instr_name gate_qubits]; split;
    try discriminate; intros _; try reflexivity.
  - exists channel_1q. split; [reflexivity |]. split; [| reflexivity].
    vm_compute. left. reflexivity.
  - exists channel_1q. split; [reflexivity |]. split; [| reflexivity].
    vm_compute. left. reflexivity.
  - exists channel_1q. split; [reflexivity |]. split; [| reflexivity].
    vm_compute. left. reflexivity.
  - exists channel_2q. split; [reflexivity |]. split; [| reflexivity].
    vm_compute. right. left. reflexivity.
Qed.

(** * Further properties of the driver *)

Lemma fold_left_max_spec : forall (l : list Z) (x : Z),
  x <= fold_left Z.max l x
  /\ (forall y, In y l -> y <= fold_left Z.max l x)
  /\ (fold_left Z.max l x = x \/ In (fold_left Z.max l x) l).
Proof.
  induction l as [| a l IH]; intros x; cbn [fold_left].
  - split; [lia |]. split; [intros y [] | left; reflexivity].
  - destruct (IH (Z.max x a)) as (H1 & H2 & H3).
    split; [lia |]. split.
    + intros y [<- | Hy]; [lia | now apply H2].
    + destruct H3 as [H3 | H3]; [| right; right; exact H3].
      rewrite H3. destruct (Z.max_spec x a) as [[_ ->] | [_ ->]];
        [right; left; reflexivity | left; reflexivity].
Qed.

Lemma py_max_spec (l : list Z) (m : Z) :
  py_max l = Ok m -> In m l /\ forall y, In y l -> y <= m.
Proof.
  destruct l as [| x l]; cbn [py_max]; intros E; [discriminate E |].
  injection E as <-.
  destruct (fold_left_max_spec l x) as (H1 & H2 & H3).
  split.
  - destruct H3 as [-> | H3]; [left; reflexivity | right; exact H3].
  - intros y [<- | Hy]; [exact H1 | now apply H2].
Qed.

Lemma py_max_nonempty (l : list Z) :
  l <> [] -> exists m, py_max l = Ok m.
Proof. destruct l as [| x l]; [congruence | eexists; reflexivity]. Qed.

Lemma sum_nonneg (l : list Z) :
  (forall y, In y l -> 0 <= y) -> 0 <= fold_right Z.add 0 l.
Proof.
  induction l as [| x l IH]; intros Hpos; cbn [fold_right]; [lia |].
  assert (0 <= x) by (apply Hpos; left; reflexivity).
  assert (0 <= fold_right Z.add 0 l)
    by (apply IH; intros y Hy; apply Hpos; right; exact Hy).
  lia.
Qed.

Lemma sum_nonpos (l : list Z) :
  (forall y, In y l -> y <= 0) -> fold_right Z.add 0 l <= 0.
Proof.
  induction l as [| x l IH]; intros Hneg; cbn [fold_right]; [lia |].
  assert (x <= 0) by (apply Hneg; left; reflexivity).
  assert (fold_right Z.add 0 l <= 0)
    by (apply IH; intros y Hy; apply Hneg; right; exact Hy).
  lia.
Qed.

Lemma member_below_sum (l : list Z) (m : Z) :
  (forall y, In y l -> 0 <= y) -> In m l -> m <= fold_right Z.add 0 l.
Proof.
  induction l as [| x l IH]; intros Hpos Hin; [destruct Hin |].
  cbn [fold_right].
  assert (0 <= x) by (apply Hpos; left; reflexivity).
  assert (Hl : forall y, In y l -> 0 <= y)
    by (intros y Hy; apply Hpos; right; exact Hy).
  pose proof (sum_nonneg l Hl).
  destruct Hin as [-> | Hin]; [lia |].
  pose proof (IH Hl Hin). lia.
Qed.

(** The largest count of a table whose counts are not negative and add
    up to a positive number of shots lies between 1 and that number. *)
Lemma largest_count_bounds (l : list Z) (m shots : Z) :
  py_max l = Ok m ->
  (forall y, In y l -> 0 <= y) ->
  fold_right Z.add 0 l = shots -> 0 < shots ->
  0 < m <= shots.
Proof.
  intros E Hpos Hsum Hshots.
  destruct (py_max_spec l m E) as [Hin Hmax].
  split.
  - destruct (Z.lt_ge_cases 0 m) as [| Hm]; [assumption |].
    assert (fold_right Z.add 0 l <= 0); [| lia].
    apply sum_nonpos. intros y Hy. specialize (Hmax y Hy). lia.
  - rewrite <- Hsum. now apply member_below_sum.
Qed.

Lemma ratio_in_unit_interval (m shots : Z) :
  0 < m <= shots ->
  (0 < inject_Z m / inject_Z shots)%Q /\ (inject_Z m / inject_Z shots <= 1)%Q.
Proof.
  intros [Hm Hs].
  assert (Hq : (0 < inject_Z shots)%Q) by (unfold Qlt; cbn; lia).
  split.
  - apply Qlt_shift_div_l; [exact Hq |].
    rewrite Qmult_0_l. unfold Qlt; cbn; lia.
  - apply Qle_shift_div_r; [exact Hq |].
    rewrite Qmult_1_l. unfold Qle; cbn; lia.
Qed.

Section DriverOutcomes.

Variables rng ext compiled : Type.
Variable mt19937_seed : Z -> rng.
Variable random_uniform : Q -> Q -> Z -> rng -> result (list Q) * rng.
Variable transpile :
  QuantumCircuit Q -> AerSimulator -> Z -> Stmt.M (world rng ext) compiled.
Variable run_counts :
  AerSimulator -> compiled -> Z -> Stmt.M (world rng ext) (list (string * Z)).
Variable depth : compiled -> Z.

Let benchmark :=
  run_egs_benchmark mt19937_seed random_uniform transpile run_counts depth.

(** The run once the vector is drawn. *)
Lemma benchmark_after_draw n_qubits n_layers w v w0 :
  generate_params mt19937_seed random_uniform n_qubits n_layers w = (Ok v, w0) ->
  benchmark n_qubits n_layers w =
  evaluate_circuits transpile run_counts depth
    (build_genomic_ansatz_standard n_qubits n_layers v)
    (build_genomic_ansatz_egs n_qubits n_layers v) w0.
Proof.
  intros G. unfold benchmark. rewrite benchmark_unfold.
  unfold Stmt.bind at 1. now rewrite G.
Qed.

(** The run once both circuits are compiled and executed. *)
Lemma evaluate_after_execution cs ce w0 c1 w1 c2 w2 k1 w3 k2 w4 :
  transpile cs backend 3 w0 = (Ok c1, w1) ->
  transpile ce backend 3 w1 = (Ok c2, w2) ->
  run_counts backend c1 SHOTS w2 = (Ok k1, w3) ->
  run_counts backend c2 SHOTS w3 = (Ok k2, w4) ->
  evaluate_circuits transpile run_counts depth (Ok cs) (Ok ce) w0 =
  match py_max (map snd k1), py_max (map snd k2) with
  | Ok m1, Ok m2 =>
      (Ok {| fid_std := (inject_Z m1 / inject_Z SHOTS)%Q;
             fid_egs := (inject_Z m2 / inject_Z SHOTS)%Q;
             depth_std := depth c1;
             depth_egs := depth c2 |}, w4)
  | Raise e, _ => (Raise e, w4)
  | Ok _, Raise e => (Raise e, w4)
  end.
Proof.
  intros T1 T2 R1 R2.
  unfold evaluate_circuits, Stmt.bind, Stmt.lift, Stmt.ret.
  rewrite T1, T2, R1, R2.
  destruct (py_max (map snd k1)); [| reflexivity].
  destruct (py_max (map snd k2)); reflexivity.
Qed.

Lemma generate_params_raises n_qubits n_layers e g' (w : world rng ext) :
  random_uniform (- np_pi)%Q np_pi (n_params n_qubits n_layers)
    (mt19937_seed 42) = (Raise e, g') ->
  generate_params mt19937_seed random_uniform n_qubits n_layers w =
  (Raise e, {| np_random := g'; qiskit := qiskit w |}).
Proof.
  intros E. rewrite generate_from_seed. unfold np_random_uniform.
  cbn [np_random qiskit]. now rewrite E.
Qed.

Lemma generate_params_draws n_qubits n_layers v g' (w : world rng ext) :
  random_uniform (- np_pi)%Q np_pi (n_params n_qubits n_layers)
    (mt19937_seed 42) = (Ok v, g') ->
  generate_params mt19937_seed random_uniform n_qubits n_layers w =
  (Ok v, {| np_random := g'; qiskit := qiskit w |}).
Proof.
  intros E. rewrite generate_from_seed. unfold np_random_uniform.
  cbn [np_random qiskit]. now rewrite E.
Qed.

End DriverOutcomes.

(** ** An execution that reports no outcome *)

(** X8.  If both circuits compile and run but one of the two outcome
    tables is empty, the run ends with the [ValueError] of [max] on an
    empty sequence, after both executions have taken place: no
    fidelity is computed and no report is returned. *)
Theorem empty_counts_raise_value_error :
  forall (rng ext compiled : Type)
         (mt19937_seed : Z -> rng)
         (random_uniform : Q -> Q -> Z -> rng -> result (list Q) * rng)
         (transpile : QuantumCircuit Q -> AerSimulator -> Z ->
                      Stmt.M (world rng ext) compiled)
         (run_counts : AerSimulator -> compiled -> Z ->
                       Stmt.M (world rng ext) (list (string * Z)))
         (depth : compiled -> Z)
         (n_qubits n_layers : Z)
         (w w0 w1 w2 w3 w4 : world rng ext) (v : list Q)
         (cs ce : QuantumCircuit Q) (c1 c2 : compiled)
         (k1 k2 : list (string * Z)),
  generate_params mt19937_seed random_uniform n_qubits n_layers w = (Ok v, w0) ->
  build_genomic_ansatz_standard n_qubits n_layers v = Ok cs ->
  build_genomic_ansatz_egs n_qubits n_layers v = Ok ce ->
  transpile cs backend 3 w0 = (Ok c1, w1) ->
  transpile ce backend 3 w1 = (Ok c2, w2) ->
  run_counts backend c1 SHOTS w2 = (Ok k1, w3) ->
  run_counts backend c2 SHOTS w3 = (Ok k2, w4) ->
  k1 = [] \/ k2 = [] ->
  run_egs_benchmark mt19937_seed random_uniform transpile run_counts depth
    n_qubits n_layers w = (Raise ValueError, w4).
Proof.
  intros rng ext compiled mt19937_seed random_uniform transpile run_counts
    depth n_qubits n_layers w w0 w1 w2 w3 w4 v cs ce c1 c2 k1 k2
    G Hs He T1 T2 R1 R2 Hempty.
  rewrite (benchmark_after_draw _ _ _ _ _ transpile run_counts depth _ _ _ _ _ G), Hs, He.
  rewrite (evaluate_after_execution _ _ _ transpile run_counts depth
             _ _ _ _ _ _ _ _ _ _ _ T1 T2 R1 R2).
  destruct Hempty as [-> | ->]; cbn [map py_max]; [reflexivity |].
  destruct (py_max (map snd k1)) as [m1 | e1] eqn:E1; [reflexivity |].
  destruct k1 as [| x k1];
    [cbn in E1; injection E1 as <-; reflexivity | discriminate E1].
Qed.

Lemma empty_counts_raise_value_error_witness :
  run_egs_benchmark lcg_seed lcg_uniform identity_transpile silent_run
    instruction_count 2 1 example_world
  = (Raise ValueError, example_world_drawn).
Proof.
  assert (G : generate_params lcg_seed lcg_uniform 2 1 example_world
              = (Ok example_params, example_world_drawn))
    by (vm_compute; reflexivity).
  assert (Hs : build_genomic_ansatz_standard 2 1 example_params
               = Ok example_standard) by (vm_compute; reflexivity).
  assert (He : build_genomic_ansatz_egs 2 1 example_params = Ok example_egs)
    by (vm_compute; reflexivity).
  exact (empty_counts_raise_value_error
           Z unit (QuantumCircuit Q) lcg_seed lcg_uniform identity_transpile
           silent_run instruction_count 2 1
           example_world example_world_drawn example_world_drawn
           example_world_drawn example_world_drawn example_world_drawn
           example_params example_standard example_egs
           example_standard example_egs [] []
           G Hs He eq_refl eq_refl eq_refl eq_refl (or_introl eq_refl)).
Defined.

(** ** The report of a run that succeeds *)

(** X9.  If both circuits compile and run and each outcome table has
    counts that are not negative and add up to [SHOTS], the run returns
    a report: each depth is the depth of the compiled circuit, each
    fidelity is the largest count of the table divided by [SHOTS], and
    both fidelities lie in (0, 1]. *)
Theorem successful_run_report :
  forall (rng ext compiled : Type)
         (mt19937_seed : Z -> rng)
         (random_uniform : Q -> Q -> Z -> rng -> result (list Q) * rng)
         (transpile : QuantumCircuit Q -> AerSimulator -> Z ->
                      Stmt.M (world rng ext) compiled)
         (run_counts : AerSimulator -> compiled -> Z ->
                       Stmt.M (world rng ext) (list (string * Z)))
         (depth : compiled -> Z)
         (n_qubits n_layers : Z)
         (w w0 w1 w2 w3 w4 : world rng ext) (v : list Q)
         (cs ce : QuantumCircuit Q) (c1 c2 : compiled)
         (k1 k2 : list (string * Z)),
  generate_params mt19937_seed random_uniform n_qubits n_layers w = (Ok v, w0) ->
  build_genomic_ansatz_standard n_qubits n_layers v = Ok cs ->
  build_genomic_ansatz_egs n_qubits n_layers v = Ok ce ->
  transpile cs backend 3 w0 = (Ok c1, w1) ->
  transpile ce backend 3 w1 = (Ok c2, w2) ->
  run_counts backend c1 SHOTS w2 = (Ok k1, w3) ->
  run_counts backend c2 SHOTS w3 = (Ok k2, w4) ->
  (forall y, In y (map snd k1) -> 0 <= y) -> total_counts k1 = SHOTS ->
  (forall y, In y (map snd k2) -> 0 <= y) -> total_counts k2 = SHOTS ->
  exists m1 m2,
    run_egs_benchmark mt19937_seed random_uniform transpile run_counts depth
      n_qubits n_layers w =
    (Ok {| fid_std := (inject_Z m1 / inject_Z SHOTS)%Q;
           fid_egs := (inject_Z m2 / inject_Z SHOTS)%Q;
           depth_std := depth c1;
           depth_egs := depth c2 |}, w4)
    /\ In m1 (map snd k1) /\ (forall y, In y (map snd k1) -> y <= m1)
    /\ In m2 (map snd k2) /\ (forall y, In y (map snd k2) -> y <= m2)
    /\ (0 < inject_Z m1 / inject_Z SHOTS)%Q
    /\ (inject_Z m1 / inject_Z SHOTS <= 1)%Q
    /\ (0 < inject_Z m2 / inject_Z SHOTS)%Q
    /\ (inject_Z m2 / inject_Z SHOTS <= 1)%Q.
Proof.
  intros rng ext compiled mt19937_seed random_uniform transpile run_counts
    depth n_qubits n_layers w w0 w1 w2 w3 w4 v cs ce c1 c2 k1 k2
    G Hs He T1 T2 R1 R2 P1 S1 P2 S2.
  assert (N : forall k, total_counts k = SHOTS -> map snd k <> []).
  { intros k Hk Hnil. unfold total_counts in Hk. rewrite Hnil in Hk.
    discriminate Hk. }
  destruct (py_max_nonempty (map snd k1) (N k1 S1)) as [m1 E1].
  destruct (py_max_nonempty (map snd k2) (N k2 S2)) as [m2 E2].
  exists m1, m2.
  rewrite (benchmark_after_draw _ _ _ _ _ transpile run_counts depth _ _ _ _ _ G), Hs, He.
  rewrite (evaluate_after_execution _ _ _ transpile run_counts depth
             _ _ _ _ _ _ _ _ _ _ _ T1 T2 R1 R2), E1, E2.
  destruct (py_max_spec _ _ E1) as [I1 M1].
  destruct (py_max_spec _ _ E2) as [I2 M2].
  destruct (ratio_in_unit_interval m1 SHOTS
              (largest_count_bounds _ _ SHOTS E1 P1 S1 eq_refl)) as [A1 B1].
  destruct (ratio_in_unit_interval m2 SHOTS
              (largest_count_bounds _ _ SHOTS E2 P2 S2 eq_refl)) as [A2 B2].
  repeat split; assumption.
Qed.

Lemma successful_run_report_witness :
  exists m1 m2,
    run_egs_benchmark lcg_seed lcg_uniform identity_transpile two_outcome_run
      instruction_count 2 1 example_world =
    (Ok {| fid_std := (inject_Z m1 / inject_Z SHOTS)%Q;
           fid_egs := (inject_Z m2 / inject_Z SHOTS)%Q;
           depth_std := instruction_count example_standard;
           depth_egs := instruction_count example_egs |}, example_world_drawn)
    /\ In m1 [SHOTS - 1000; 1000] /\ (forall y, In y [SHOTS - 1000; 1000] -> y <= m1)
    /\ In m2 [SHOTS - 1000; 1000] /\ (forall y, In y [SHOTS - 1000; 1000] -> y <= m2)
    /\ (0 < inject_Z m1 / inject_Z SHOTS)%Q
    /\ (inject_Z m1 / inject_Z SHOTS <= 1)%Q
    /\ (0 < inject_Z m2 / inject_Z SHOTS)%Q
    /\ (inject_Z m2 / inject_Z SHOTS <= 1)%Q.
Proof.
  assert (G : generate_params lcg_seed lcg_uniform 2 1 example_world
              = (Ok example_params, example_world_drawn))
    by (vm_compute; reflexivity).
  assert (Hs : build_genomic_ansatz_standard 2 1 example_params
               = Ok example_standard) by (vm_compute; reflexivity).
  assert (He : build_genomic_ansatz_egs 2 1 example_params = Ok example_egs)
    by (vm_compute; reflexivity).
  assert (P : forall y, In y [SHOTS - 1000; 1000] -> 0 <= y).
  { intros y [<- | [<- | []]]; vm_compute; discriminate. }
  exact (successful_run_report
           Z unit (QuantumCircuit Q) lcg_seed lcg_uniform identity_transpile
           two_outcome_run instruction_count 2 1
           example_world example_world_drawn example_world_drawn
           example_world_drawn example_world_drawn example_world_drawn
           example_params example_standard example_egs
           example_standard example_egs
           [("00"%string, SHOTS - 1000); ("11"%string, 1000)]
           [("00"%string, SHOTS - 1000); ("11"%string, 1000)]
           G Hs He eq_refl eq_refl eq_refl eq_refl P eq_refl P eq_refl).
Defined.

(** ** A draw that fails *)

(** X10.  If drawing the vector raises (NumPy refuses a negative size,
    which is what [n_params] is for, say, no qubit and one layer), the
    run ends with that exception right there: the generator has been
    reseeded, no circuit is compiled or executed, and the state of the
    Qiskit side is untouched. *)
Theorem failed_draw_ends_run :
  forall (rng ext compiled : Type)
         (mt19937_seed : Z -> rng)
         (random_uniform : Q -> Q -> Z -> rng -> result (list Q) * rng)
         (transpile : QuantumCircuit Q -> AerSimulator -> Z ->
                      Stmt.M (world rng ext) compiled)
         (run_counts : AerSimulator -> compiled -> Z ->
                       Stmt.M (world rng ext) (list (string * Z)))
         (depth : compiled -> Z)
         (n_qubits n_layers : Z) (e : exn) (g' : rng) (w : world rng ext),
  random_uniform (- np_pi)%Q np_pi (n_params n_qubits n_layers)
    (mt19937_seed 42) = (Raise e, g') ->
  run_egs_benchmark mt19937_seed random_uniform transpile run_counts depth
    n_qubits n_layers w =
  (Raise e, {| np_random := g'; qiskit := qiskit w |}).
Proof.
  intros rng ext compiled mt19937_seed random_uniform transpile run_counts
    depth n_qubits n_layers e g' w E.
  rewrite benchmark_unfold. unfold Stmt.bind.
  now rewrite (generate_params_raises _ _ _ _ _ _ _ _ w E).
Qed.

Lemma failed_draw_ends_run_witness :
  run_egs_benchmark lcg_seed lcg_uniform identity_transpile two_outcome_run
    instruction_count 0 1 example_world
  = (Raise ValueError, {| np_random := 42; qiskit := tt |}).
Proof.
  exact (failed_draw_ends_run
           Z unit (QuantumCircuit Q) lcg_seed lcg_uniform identity_transpile
           two_outcome_run instruction_count 0 1 ValueError 42 example_world
           eq_refl).
Defined.

(** ** The driver draws what the builders read *)

(** X11.  For at least one qubit and a non-negative number of layers,
    if the draw on the seeded generator returns as many samples as it
    was asked for, the vector has exactly the length the builders
    read: neither builder fails inside the run, the circuits that are
    compiled are the two schedules of the drawn vector, and every
    drawn parameter is the angle of one rotation in each circuit, in
    order, none left over. *)
Theorem driver_draws_what_builders_read :
  forall (rng ext compiled : Type)
         (mt19937_seed : Z -> rng)
         (random_uniform : Q -> Q -> Z -> rng -> result (list Q) * rng)
         (transpile : QuantumCircuit Q -> AerSimulator -> Z ->
                      Stmt.M (world rng ext) compiled)
         (run_counts : AerSimulator -> compiled -> Z ->
                       Stmt.M (world rng ext) (list (string * Z)))
         (depth : compiled -> Z)
         (n_qubits n_layers : Z) (v : list Q) (g : rng),
  1 <= n_qubits -> 0 <= n_layers ->
  random_uniform (- np_pi)%Q np_pi (n_params n_qubits n_layers)
    (mt19937_seed 42) = (Ok v, g) ->
  Z.of_nat (length v) = n_params n_qubits n_layers ->
  exists cs ce : QuantumCircuit Q,
    build_genomic_ansatz_standard n_qubits n_layers v = Ok cs
    /\ build_genomic_ansatz_egs n_qubits n_layers v = Ok ce
    /\ data cs = standard_schedule n_qubits n_layers v
    /\ data ce = egs_schedule n_qubits n_layers v
    /\ angles (data cs) = v
    /\ angles (data ce) = v
    /\ forall w : world rng ext,
         run_egs_benchmark mt19937_seed random_uniform transpile run_counts
           depth n_qubits n_layers w =
         evaluate_circuits transpile run_counts depth (Ok cs) (Ok ce)
           {| np_random := g; qiskit := qiskit w |}.
Proof.
  intros rng ext compiled mt19937_seed random_uniform transpile run_counts
    depth n_qubits n_layers v g Hn Hl E Hlen.
  assert (Hc : consumed n_qubits n_layers = length v).
  { apply valid_consumed; [lia | exact Hl | exact Hlen]. }
  do 2 eexists.
  split; [apply standard_ok; lia |].
  split; [apply egs_ok; lia |].
  cbn [data].
  split; [reflexivity |]. split; [reflexivity |].
  split; [rewrite angles_standard_schedule, Hc; apply firstn_all |].
  split; [rewrite angles_egs_schedule, Hc; apply firstn_all |].
  intros w.
  rewrite (benchmark_after_draw _ _ _ _ _ transpile run_counts depth _ _ _ _ _
             (generate_params_draws _ _ _ _ _ _ _ _ w E)).
  rewrite standard_ok, egs_ok by lia. reflexivity.
Qed.

Lemma driver_draws_what_builders_read_witness :
  exists cs ce : QuantumCircuit Q,
    build_genomic_ansatz_standard 2 1 example_params = Ok cs
    /\ build_genomic_ansatz_egs 2 1 example_params = Ok ce
    /\ data cs = standard_schedule 2 1 example_params
    /\ data ce = egs_schedule 2 1 example_params
    /\ angles (data cs) = example_params
    /\ angles (data ce) = example_params
    /\ forall w : world Z unit,
         run_egs_benchmark lcg_seed lcg_uniform identity_transpile
           two_outcome_run instruction_count 2 1 w =
         evaluate_circuits identity_transpile two_outcome_run
           instruction_count (Ok cs) (Ok ce)
           {| np_random := np_random example_world_drawn; qiskit := qiskit w |}.
Proof.
  apply (driver_draws_what_builders_read Z unit (QuantumCircuit Q)
           lcg_seed lcg_uniform identity_transpile two_outcome_run
           instruction_count 2 1 example_params
           (np_random example_world_drawn)).
  - lia.
  - lia.
  - vm_compute. reflexivity.
  - reflexivity.
Defined.

(** * C1: what the two circuits share and where they differ *)

Lemma is_cx_on_adjacent {angle} (i j : Z) :
  is_cx_on i (i + 1) (@Cx angle j (j + 1)) = (j =? i).
Proof.
  cbn. destruct (Z.eqb_spec j i) as [-> | Hne].
  - now rewrite Z.eqb_refl.
  - reflexivity.
Qed.

Lemma seq_count (i : Z) : forall (len start : nat),
  length (filter (fun j => j =? i) (map Z.of_nat (seq start len))) =
  if (Z.of_nat start <=? i) && (i <? Z.of_nat (start + len)) then 1%nat
  else 0%nat.
Proof.
  induction len as [| len IH]; intros start; cbn [seq map filter].
  - destruct (Z.leb_spec (Z.of_nat start) i), (Z.ltb_spec i (Z.of_nat (start + 0)));
      cbn; try reflexivity; lia.
  - specialize (IH (S start)).
    destruct (Z.eqb_spec (Z.of_nat start) i) as [E | E]; cbn [length];
      rewrite IH;
      destruct (Z.leb_spec (Z.of_nat (S start)) i),
               (Z.ltb_spec i (Z.of_nat (S start + len))),
               (Z.leb_spec (Z.of_nat start) i),
               (Z.ltb_spec i (Z.of_nat (start + S len)));
      cbn; try reflexivity; lia.
Qed.

(** Each index of a range occurs in it once. *)
Lemma range_count (i k : Z) :
  0 <= i < k -> length (filter (fun j => j =? i) (range k)) = 1%nat.
Proof.
  intros Hi. unfold range. rewrite seq_count.
  destruct (Z.leb_spec (Z.of_nat 0) i), (Z.ltb_spec i (Z.of_nat (0 + Z.to_nat k)));
    cbn; try reflexivity; lia.
Qed.

Lemma cx_on_entanglers {angle} (c t : Z) (l : list (instr angle)) :
  filter (is_cx_on c t) l = filter (is_cx_on c t) (entanglers l).
Proof.
  unfold entanglers.
  induction l as [| g l IH]; cbn; [reflexivity |].
  destruct g; cbn; try exact IH.
  now rewrite IH.
Qed.

Lemma cx_chain_count {angle} n_qubits (i : Z) :
  0 <= i < n_qubits - 1 ->
  length (filter (is_cx_on i (i + 1)) (@cx_chain angle n_qubits)) = 1%nat.
Proof.
  intros Hi.
  assert (E : length (filter (is_cx_on i (i + 1)) (@cx_chain angle n_qubits))
              = length (filter (fun j => j =? i) (range (n_qubits - 1)))).
  { unfold cx_chain.
    induction (range (n_qubits - 1)) as [| j l IH]; [reflexivity |].
    cbn [map filter]. rewrite is_cx_on_adjacent.
    destruct (j =? i); cbn [length]; now rewrite IH. }
  rewrite E. now apply range_count.
Qed.

Lemma cx_twice_count {angle} n_qubits (i : Z) :
  0 <= i < n_qubits - 1 ->
  length (filter (is_cx_on i (i + 1)) (@cx_twice angle n_qubits)) = 2%nat.
Proof.
  intros Hi.
  assert (E : length (filter (is_cx_on i (i + 1)) (@cx_twice angle n_qubits))
              = (2 * length (filter (fun j => (j =? i)%Z) (range (n_qubits - 1))))%nat).
  { unfold cx_twice.
    induction (range (n_qubits - 1)) as [| j l IH]; [reflexivity |].
    cbn [flat_map app filter]. rewrite is_cx_on_adjacent.
    destruct (j =? i); cbn [length]; rewrite IH; lia. }
  rewrite E, range_count by exact Hi. reflexivity.
Qed.

Lemma fixed_gates_standard_schedule {angle} n_qubits layers (ps : list angle) :
  fixed_gates (standard_schedule n_qubits layers ps) =
  h_stage n_qubits ++ map (fun q => Measure q q) (range n_qubits).
Proof.
  unfold standard_schedule. rewrite !fixed_gates_app.
  rewrite (fixed_gates_layers angle _ _ _ _
             (fixed_gates_standard_layer angle n_qubits)).
  unfold fixed_gates, h_stage, measure_all_instrs. cbn [app filter is_barrier negb andb].
  now rewrite !filter_map_all by reflexivity.
Qed.

(** C1, amended.  On every valid input both builders succeed, and:
    the rotation gates of the two circuits are the same list, layer
    after layer [rz] on qubits 1, 2, ... then [rx] on qubits 0, 1, ...,
    carrying the parameters in order; both circuits have one [h] and
    one measurement per qubit; the standard circuit holds, per layer,
    the [cx] of every adjacent pair twice, the EGS circuit once, so
    that each [cx (i, i+1)] occurs [2 * n_layers] times in the standard
    circuit and [n_layers] times in the EGS circuit, and the gates of
    the standard circuit are, as a multiset, those of the EGS circuit
    plus one more copy of its [cx] gates; the standard circuit holds
    one barrier, the EGS circuit [2 + 2 * n_layers]. *)
Theorem standard_gates_are_egs_gates_with_cx_doubled :
  forall (angle : Type) (n_qubits layers : Z) (params : list angle),
  0 <= n_qubits -> 0 <= layers ->
  Z.of_nat (length params) = n_params n_qubits layers ->
  exists cs ce,
    build_genomic_ansatz_standard n_qubits layers params = Ok cs
    /\ build_genomic_ansatz_egs n_qubits layers params = Ok ce
    /\ rotations (data cs) = rotation_plan n_qubits layers params
    /\ rotations (data ce) = rotation_plan n_qubits layers params
    /\ angles (rotation_plan n_qubits layers params) = params
    /\ fixed_gates (data cs) =
       h_stage n_qubits ++ map (fun q => Measure q q) (range n_qubits)
    /\ fixed_gates (data ce) =
       h_stage n_qubits ++ map (fun q => Measure q q) (range n_qubits)
    /\ entanglers (data cs) =
       concat (repeat
                 (flat_map (fun i => [Cx i (i + 1); Cx i (i + 1)])
                    (range (n_qubits - 1)))
                 (Z.to_nat layers))
    /\ entanglers (data ce) =
       concat (repeat
                 (map (fun i => Cx i (i + 1)) (range (n_qubits - 1)))
                 (Z.to_nat layers))
    /\ (forall i, 0 <= i < n_qubits - 1 ->
          length (filter (is_cx_on i (i + 1)) (data cs))
          = (2 * Z.to_nat layers)%nat
          /\ length (filter (is_cx_on i (i + 1)) (data ce)) = Z.to_nat layers)
    /\ Permutation (entanglers (data cs))
                   (entanglers (data ce) ++ entanglers (data ce))
    /\ Permutation (gates (data cs))
                   (gates (data ce) ++ entanglers (data ce))
    /\ barriers (data cs) = [Barrier]
    /\ length (barriers (data ce)) = (2 + 2 * Z.to_nat layers)%nat.
Proof.
  intros angle n_qubits layers params Hn Hl Hlen.
  pose proof (valid_consumed n_qubits layers params Hn Hl Hlen) as Hc.
  assert (Hle : (consumed n_qubits layers <= length params)%nat) by lia.
  pose proof (rotations_standard_schedule angle n_qubits layers params) as RS.
  pose proof (rotations_egs_schedule angle n_qubits layers params) as RE.
  pose proof (entanglers_standard_schedule angle n_qubits layers params Hle)
    as ES.
  pose proof (entanglers_egs_schedule angle n_qubits layers params) as EE.
  pose proof (fixed_gates_standard_schedule n_qubits layers params) as FS.
  assert (FE : fixed_gates (egs_schedule n_qubits layers params) =
               h_stage n_qubits ++ map (fun q => Measure q q) (range n_qubits)).
  { now rewrite <- fixed_gates_schedules. }
  assert (HE : Permutation
                 (entanglers (standard_schedule n_qubits layers params))
                 (entanglers (egs_schedule n_qubits layers params)
                  ++ entanglers (egs_schedule n_qubits layers params))).
  { rewrite ES, EE. apply repeat_doubles, cx_twice_doubles. }
  do 2 eexists.
  split; [apply standard_ok; assumption |].
  split; [apply egs_ok; assumption |].
  cbn [data].
  split; [exact RS |]. split; [exact RE |].
  split; [rewrite angles_rotation_plan, Hc; apply firstn_all |].
  split; [exact FS |]. split; [exact FE |].
  split; [exact ES |]. split; [exact EE |].
  split.
  { intros i Hi. split.
    - rewrite cx_on_entanglers, ES, filter_concat_repeat,
        length_concat_repeat, cx_twice_count by exact Hi. lia.
    - rewrite cx_on_entanglers, EE. unfold cx_stage.
      rewrite filter_concat_repeat, length_concat_repeat,
        cx_chain_count by exact Hi. lia. }
  split; [exact HE |].
  split.
  { rewrite (gates_by_class _ (standard_schedule n_qubits layers params)).
    rewrite (gates_by_class _ (egs_schedule n_qubits layers params)).
    rewrite RS, RE, FS, FE, HE, <- !app_assoc. reflexivity. }
  split; [apply barriers_standard_schedule | apply barriers_egs_schedule].
Qed.

Lemma standard_gates_are_egs_gates_with_cx_doubled_witness :
  exists cs ce,
    build_genomic_ansatz_standard 3 2 [1; 2; 3; 4; 5; 6; 7; 8; 9; 10] = Ok cs
    /\ build_genomic_ansatz_egs 3 2 [1; 2; 3; 4; 5; 6; 7; 8; 9; 10] = Ok ce
    /\ rotations (data cs) = rotation_plan 3 2 [1; 2; 3; 4; 5; 6; 7; 8; 9; 10]
    /\ rotations (data ce) = rotation_plan 3 2 [1; 2; 3; 4; 5; 6; 7; 8; 9; 10]
    /\ angles (rotation_plan 3 2 [1; 2; 3; 4; 5; 6; 7; 8; 9; 10])
       = [1; 2; 3; 4; 5; 6; 7; 8; 9; 10]
    /\ fixed_gates (data cs) =
       h_stage 3 ++ map (fun q => Measure q q) (range 3)
    /\ fixed_gates (data ce) =
       h_stage 3 ++ map (fun q => Measure q q) (range 3)
    /\ entanglers (data cs) =
       concat (repeat
                 (flat_map (fun i => [Cx i (i + 1); Cx i (i + 1)])
                    (range (3 - 1)))
                 (Z.to_nat 2))
    /\ entanglers (data ce) =
       concat (repeat
                 (map (fun i => Cx i (i + 1)) (range (3 - 1)))
                 (Z.to_nat 2))
    /\ (forall i, 0 <= i < 3 - 1 ->
          length (filter (is_cx_on i (i + 1)) (data cs))
          = (2 * Z.to_nat 2)%nat
          /\ length (filter (is_cx_on i (i + 1)) (data ce)) = Z.to_nat 2)
    /\ Permutation (entanglers (data cs))
                   (entanglers (data ce) ++ entanglers (data ce))
    /\ Permutation (gates (data cs))
                   (gates (data ce) ++ entanglers (data ce))
    /\ barriers (data cs) = [Barrier]
    /\ length (barriers (data ce)) = (2 + 2 * Z.to_nat 2)%nat.
Proof.
  apply (standard_gates_are_egs_gates_with_cx_doubled
           Z 3 2 [1; 2; 3; 4; 5; 6; 7; 8; 9; 10]);
    [lia | lia | reflexivity].
Defined.
